(** * DataRedundancyRemovalSystem: the deduplicating store of [services.py]

    A shallow embedding of [src/services.py], [src/database.py] and the
    handlers of [src/main.py], together with the parts of the Python
    standard library the store relies on ([bytes.decode('utf-8')],
    [base64.b64encode], [json.loads], [json.dumps]).

    Layout: Python values and codecs, the JSON reader and writer, the
    [data_entries] table, the [DataValidator] service, the HTTP handlers,
    and then the properties.

    What the model takes for granted:
    - BLAKE3, libmagic and floating point are abstract total functions; a
      BLAKE3 digest is text the storage can hold;
    - which documents are nested too deep for the interpreter's stack is
      for the environment to say ([PyEnv]); a text with at most one
      opening bracket never is;
    - the storage is SQLite behind the [sqlite3] driver: it refuses a row
      whose hash is stored already, a text with a lone surrogate and an
      integer outside 64 bits; other failures of the storage (unreachable,
      full, a row beyond its size limit) are left out;
    - a session sees the committed rows; a query without [ORDER BY]
      yields them in the order of the access path the engine takes. *)

From Stdlib Require Import List ZArith NArith Bool Lia.
From Stdlib.Strings Require Import Ascii Byte.
From Stdlib.Strings Require String.
Import String.StringSyntax.
From Stdlib Require Import Sorted Permutation.
From Stdlib Require DecimalPos.
Import ListNotations.
Open Scope string_scope.
Open Scope list_scope.

(* ================================================================== *)
(** ** Python values *)

(** A Python [str] is a sequence of Unicode code points; a [bytes] object
    is a sequence of octets. *)
Definition str := list N.
Definition bytes := list byte.

(** Literals: the code points (resp. octets) of an ASCII Rocq string. *)
Definition lit (s : String.string) : str :=
  map N_of_ascii (String.list_ascii_of_string s).

Definition blit (s : String.string) : bytes :=
  String.list_byte_of_string s.

Definition octets (l : list N) : bytes :=
  map (fun n => match Byte.of_N n with Some b => b | None => x00 end) l.

Fixpoint str_eqb (a b : str) : bool :=
  match a, b with
  | [], [] => true
  | x :: a', y :: b' => N.eqb x y && str_eqb a' b'
  | _, _ => false
  end.

(** The code point of an ASCII character, and the ones that have no
    literal form in this file. *)
Definition ch (a : ascii) : N := N_of_ascii a.

Definition QUOTE : N := 34.
Definition BACKSLASH : N := 92.
Definition LF : N := 10.
Definition CR : N := 13.
Definition TAB : N := 9.
Definition BS : N := 8.
Definition FF : N := 12.

(** [str(int)]: the decimal digits of an integer. *)
Fixpoint uint_digits (d : Decimal.uint) : str :=
  match d with
  | Decimal.Nil => []
  | Decimal.D0 r => ch "0" :: uint_digits r
  | Decimal.D1 r => ch "1" :: uint_digits r
  | Decimal.D2 r => ch "2" :: uint_digits r
  | Decimal.D3 r => ch "3" :: uint_digits r
  | Decimal.D4 r => ch "4" :: uint_digits r
  | Decimal.D5 r => ch "5" :: uint_digits r
  | Decimal.D6 r => ch "6" :: uint_digits r
  | Decimal.D7 r => ch "7" :: uint_digits r
  | Decimal.D8 r => ch "8" :: uint_digits r
  | Decimal.D9 r => ch "9" :: uint_digits r
  end.

Definition int_repr (z : Z) : str :=
  match z with
  | Z0 => lit "0"
  | Zpos p => uint_digits (Pos.to_uint p)
  | Zneg p => lit "-" ++ uint_digits (Pos.to_uint p)
  end.

(** Lower-case hexadecimal digit of a nibble (['%x']). *)
Definition hex_digit (n : N) : N :=
  (if n <? 10 then ch "0" + n else ch "a" + (n - 10))%N.

(** A surrogate code point.  A [str] may hold one on its own (JSON text
    can spell it as an escape); no UTF-8 text does, so
    [s.encode('utf-8')] then raises [UnicodeEncodeError]. *)
Definition surrogate (c : N) : bool := ((0xD800 <=? c) && (c <=? 0xDFFF))%N.

Definition encodable (s : str) : bool :=
  forallb (fun c => negb (surrogate c)) s.

(** The number of opening brackets and braces of a text: a bound on how
    deep a document written in it is nested. *)
Definition brackets (s : str) : nat :=
  length (filter (fun c => (c =? ch "[") || (c =? ch "{"))%N s).

(* ================================================================== *)
(** ** Exceptions *)

Inductive exn :=
| IntegrityError      (* UNIQUE constraint failed: [content_hash] *)
| AttributeError
| JSONDecodeError
| ValueError          (* an integer of more digits than [int] converts *)
| RecursionError      (* maximum recursion depth exceeded *)
| UnicodeEncodeError  (* surrogates not allowed *)
| OverflowError       (* Python int too large to convert to SQLite INTEGER *)
| HTTPException (status_code : Z).

Inductive result (A : Type) :=
| Ok (a : A)
| Raise (e : exn).

Arguments Ok {A} a.
Arguments Raise {A} e.

(* ================================================================== *)
(** ** [bytes.decode('utf-8')]

    The strict decoder: [None] stands for [UnicodeDecodeError].  It accepts
    exactly the well-formed sequences (no overlong forms, no surrogates,
    nothing above U+10FFFF). *)
Module Utf8.

Definition in_range (lo hi b : N) : bool := ((lo <=? b) && (b <=? hi))%N.

Definition cont (b : N) : bool := in_range 0x80 0xBF b.

Definition low6 (b : N) : N := N.land b 0x3F.

Fixpoint decode_octets (bs : list N) : option str :=
  match bs with
  | [] => Some []
  | b0 :: r0 =>
    if (b0 <? 0x80)%N then
      option_map (cons b0) (decode_octets r0)
    else if in_range 0xC2 0xDF b0 then
      match r0 with
      | b1 :: r1 =>
        if cont b1
        then option_map (cons (N.shiftl (N.land b0 0x1F) 6 + low6 b1)%N)
                        (decode_octets r1)
        else None
      | _ => None
      end
    else if in_range 0xE0 0xEF b0 then
      match r0 with
      | b1 :: b2 :: r2 =>
        let lo1 := if (b0 =? 0xE0)%N then 0xA0%N else 0x80%N in
        let hi1 := if (b0 =? 0xED)%N then 0x9F%N else 0xBF%N in
        if in_range lo1 hi1 b1 && cont b2
        then option_map
               (cons (N.shiftl (N.land b0 0x0F) 12
                      + N.shiftl (low6 b1) 6 + low6 b2)%N)
               (decode_octets r2)
        else None
      | _ => None
      end
    else if in_range 0xF0 0xF4 b0 then
      match r0 with
      | b1 :: b2 :: b3 :: r3 =>
        let lo1 := if (b0 =? 0xF0)%N then 0x90%N else 0x80%N in
        let hi1 := if (b0 =? 0xF4)%N then 0x8F%N else 0xBF%N in
        if in_range lo1 hi1 b1 && cont b2 && cont b3
        then option_map
               (cons (N.shiftl (N.land b0 0x07) 18
                      + N.shiftl (low6 b1) 12
                      + N.shiftl (low6 b2) 6 + low6 b3)%N)
               (decode_octets r3)
        else None
      | _ => None
      end
    else None
  end.

Definition decode (b : bytes) : option str :=
  decode_octets (map Byte.to_N b).

End Utf8.

(* ================================================================== *)
(** ** [base64.b64encode(...).decode('utf-8')] *)
Module Base64.

(** The standard alphabet: A-Z, a-z, 0-9, '+', '/'. *)
Definition alphabet (i : N) : N :=
  (if i <? 26 then ch "A" + i
   else if i <? 52 then ch "a" + (i - 26)
   else if i <? 62 then ch "0" + (i - 52)
   else if i =? 62 then ch "+"
   else ch "/")%N.

Definition PAD : N := ch "=".

Fixpoint encode_octets (bs : list N) : str :=
  match bs with
  | [] => []
  | [a] =>
    [ alphabet (N.shiftr a 2);
      alphabet (N.shiftl (N.land a 3) 4);
      PAD; PAD ]
  | [a; b] =>
    [ alphabet (N.shiftr a 2);
      alphabet (N.lor (N.shiftl (N.land a 3) 4) (N.shiftr b 4));
      alphabet (N.shiftl (N.land b 15) 2);
      PAD ]
  | a :: b :: c :: rest =>
    alphabet (N.shiftr a 2)
    :: alphabet (N.lor (N.shiftl (N.land a 3) 4) (N.shiftr b 4))
    :: alphabet (N.lor (N.shiftl (N.land b 15) 2) (N.shiftr c 6))
    :: alphabet (N.land c 63)
    :: encode_octets rest
  end.

Definition b64encode (b : bytes) : str :=
  encode_octets (map Byte.to_N b).

End Base64.

(* ================================================================== *)
(** ** Third-party libraries

    What the store takes from outside the repository and the standard
    library: BLAKE3 ([blake3.blake3(...).hexdigest()]), libmagic
    ([magic.Magic(mime=True).from_buffer]) and Python's binary floating
    point, which [json] reaches through [float(...)] and [float.__repr__].
    They are kept abstract: total functions of their argument.

    So are the limits of the interpreter the service runs in: the number
    of digits [int] converts, and the room its stack leaves to the
    recursive [json] functions where the service calls them. *)
Class PyEnv := {
  pyfloat : Type;
  (** [float(text)] for a JSON number with a fraction or an exponent, and
      for the constants [NaN], [Infinity], [-Infinity]. *)
  float_of_str : str -> pyfloat;
  (** The rendering [json.dumps] uses for a float. *)
  float_repr : pyfloat -> str;
  blake3_hexdigest : bytes -> str;
  magic_from_buffer : bytes -> str;
  (** [sys.get_int_max_str_digits()]: 4300 unless configured otherwise;
      0 lifts the limit. *)
  int_max_str_digits : N;
  (** In [create_data_entry]: [json.loads(content_str)], or [json.dumps]
      of its result, exhausts the stack ([RecursionError]). *)
  content_overflows : str -> bool;
  (** In the handlers: [json.loads(metadata)] exhausts the stack. *)
  metadata_overflows : str -> bool
}.

(* ================================================================== *)
(** ** [json.loads] and [json.dumps(indent=2, ensure_ascii=False)] *)
Module Json.
Section WithEnv.
Context {E : PyEnv}.

#[local] Unset Elimination Schemes.

(** The Python values [json.loads] builds.  A [dict] keeps its keys in
    insertion order and holds each key once. *)
Inductive json :=
| JNull
| JBool (b : bool)
| JInt (z : Z)
| JFloat (f : pyfloat)
| JStr (s : str)
| JList (l : list json)
| JDict (d : list (str * json)).

#[local] Set Elimination Schemes.

(** [d[k] = v]: a key already present keeps its position. *)
Fixpoint dict_set (d : list (str * json)) (k : str) (v : json)
  : list (str * json) :=
  match d with
  | [] => [(k, v)]
  | (k', v') :: d' =>
    if str_eqb k' k then (k', v) :: d' else (k', v') :: dict_set d' k v
  end.

(** *** Scanning *)

Inductive token :=
| TLBrace | TRBrace | TLBracket | TRBracket | TComma | TColon
| TString (s : str)
| TInt (z : Z)
| TFloat (f : pyfloat)
| TTrue | TFalse | TNull.

(** The whitespace of the decoder: space, tab, line feed, carriage
    return. *)
Definition is_ws (c : N) : bool :=
  ((c =? ch " ") || (c =? TAB) || (c =? LF) || (c =? CR))%N.

Definition is_digit (c : N) : bool := ((ch "0" <=? c) && (c <=? ch "9"))%N.

Definition hex_val (c : N) : option N :=
  (if is_digit c then Some (c - ch "0")
   else if (ch "a" <=? c) && (c <=? ch "f") then Some (c - ch "a" + 10)
   else if (ch "A" <=? c) && (c <=? ch "F") then Some (c - ch "A" + 10)
   else None)%N.

Definition is_high_surrogate (c : N) : bool :=
  ((0xD800 <=? c) && (c <=? 0xDBFF))%N.
Definition is_low_surrogate (c : N) : bool :=
  ((0xDC00 <=? c) && (c <=? 0xDFFF))%N.
Definition join_surrogates (hi lo : N) : N :=
  (0x10000 + N.lor (N.shiftl (hi - 0xD800) 10) (lo - 0xDC00))%N.

(** [int(text)] for the integer part of a number: an optional minus sign,
    then either a single 0 or a non-zero digit followed by digits. *)
Definition digits_value (ds : str) : Z :=
  fold_left (fun acc c => (10 * acc + Z.of_N (c - ch "0"))%Z) ds 0%Z.

Definition int_of_str (text : str) : Z :=
  match text with
  | c :: ds =>
    if (c =? ch "-")%N then (- digits_value ds)%Z else digits_value text
  | [] => 0%Z
  end.

(** Where the scanner stands inside a number: integer part, optional
    fraction (a dot and at least one digit), optional exponent (e or E, an
    optional sign, at least one digit). *)
Inductive num_state :=
| NMinus | NZero | NInt | NDot | NFrac | NE | NESign | NExp.

(** Scanner states.  Accumulated text is kept reversed.  In a string,
    [hi] is a high surrogate read from a [\u] escape and not yet stored:
    it is joined with a low surrogate when the next thing read is a
    [\u] escape of one, and stored alone otherwise. *)
Inductive lex_state :=
| LIdle
| LStr (acc : str) (hi : option N)
| LEsc (acc : str) (hi : option N)
| LHex (acc : str) (hi : option N) (k : nat) (v : N)
| LNum (st : num_state) (text : str)
| LKw (rest : str) (t : token).

Definition flush (acc : str) (hi : option N) : str :=
  match hi with Some h => h :: acc | None => acc end.

Definition num_token (st : num_state) (text : str) : option token :=
  match st with
  | NZero | NInt => Some (TInt (int_of_str (rev text)))
  | NFrac | NExp => Some (TFloat (float_of_str (rev text)))
  | NMinus | NDot | NE | NESign => None
  end.

Definition lex_idle (c : N) : option (list token * lex_state) :=
  if is_ws c then Some ([], LIdle)
  else if (c =? ch "{")%N then Some ([TLBrace], LIdle)
  else if (c =? ch "}")%N then Some ([TRBrace], LIdle)
  else if (c =? ch "[")%N then Some ([TLBracket], LIdle)
  else if (c =? ch "]")%N then Some ([TRBracket], LIdle)
  else if (c =? ch ",")%N then Some ([TComma], LIdle)
  else if (c =? ch ":")%N then Some ([TColon], LIdle)
  else if (c =? QUOTE)%N then Some ([], LStr [] None)
  else if (c =? ch "-")%N then Some ([], LNum NMinus [c])
  else if (c =? ch "0")%N then Some ([], LNum NZero [c])
  else if is_digit c then Some ([], LNum NInt [c])
  else if (c =? ch "t")%N then Some ([], LKw (lit "rue") TTrue)
  else if (c =? ch "f")%N then Some ([], LKw (lit "alse") TFalse)
  else if (c =? ch "n")%N then Some ([], LKw (lit "ull") TNull)
  else if (c =? ch "N")%N
    then Some ([], LKw (lit "aN") (TFloat (float_of_str (lit "NaN"))))
  else if (c =? ch "I")%N
    then Some ([], LKw (lit "nfinity")
                     (TFloat (float_of_str (lit "Infinity"))))
  else None.

(** A number ends at the first character that cannot continue it; that
    character is then scanned on its own. *)
Definition lex_num_end (st : num_state) (text : str) (c : N)
  : option (list token * lex_state) :=
  match num_token st text, lex_idle c with
  | Some t, Some (ts, s') => Some (t :: ts, s')
  | _, _ => None
  end.

Definition is_exp_mark (c : N) : bool := ((c =? ch "e") || (c =? ch "E"))%N.

Definition lex_num (st : num_state) (text : str) (c : N)
  : option (list token * lex_state) :=
  match st with
  | NMinus =>
    if (c =? ch "0")%N then Some ([], LNum NZero (c :: text))
    else if is_digit c then Some ([], LNum NInt (c :: text))
    else if (c =? ch "I")%N
      then Some ([], LKw (lit "nfinity")
                       (TFloat (float_of_str (lit "-Infinity"))))
    else None
  | NZero =>
    if (c =? ch ".")%N then Some ([], LNum NDot (c :: text))
    else if is_exp_mark c then Some ([], LNum NE (c :: text))
    else lex_num_end st text c
  | NInt =>
    if is_digit c then Some ([], LNum NInt (c :: text))
    else if (c =? ch ".")%N then Some ([], LNum NDot (c :: text))
    else if is_exp_mark c then Some ([], LNum NE (c :: text))
    else lex_num_end st text c
  | NDot =>
    if is_digit c then Some ([], LNum NFrac (c :: text)) else None
  | NFrac =>
    if is_digit c then Some ([], LNum NFrac (c :: text))
    else if is_exp_mark c then Some ([], LNum NE (c :: text))
    else lex_num_end st text c
  | NE =>
    if ((c =? ch "+") || (c =? ch "-"))%N
      then Some ([], LNum NESign (c :: text))
    else if is_digit c then Some ([], LNum NExp (c :: text))
    else None
  | NESign =>
    if is_digit c then Some ([], LNum NExp (c :: text)) else None
  | NExp =>
    if is_digit c then Some ([], LNum NExp (c :: text))
    else lex_num_end st text c
  end.

(** The character an escape [\c] stands for. *)
Definition unescape (c : N) : option N :=
  (if c =? QUOTE then Some QUOTE
   else if c =? BACKSLASH then Some BACKSLASH
   else if c =? ch "/" then Some (ch "/")
   else if c =? ch "b" then Some BS
   else if c =? ch "f" then Some FF
   else if c =? ch "n" then Some LF
   else if c =? ch "r" then Some CR
   else if c =? ch "t" then Some TAB
   else None)%N.

(** A [\uXXXX] escape of value [v] has been read. *)
Definition lex_unicode (acc : str) (hi : option N) (v : N) : lex_state :=
  match hi with
  | Some h =>
    if is_low_surrogate v then LStr (join_surrogates h v :: acc) None
    else if is_high_surrogate v then LStr (h :: acc) (Some v)
    else LStr (v :: h :: acc) None
  | None =>
    if is_high_surrogate v then LStr acc (Some v)
    else LStr (v :: acc) None
  end.

Definition lex_step (s : lex_state) (c : N)
  : option (list token * lex_state) :=
  match s with
  | LIdle => lex_idle c
  | LStr acc hi =>
    if (c =? QUOTE)%N then Some ([TString (rev (flush acc hi))], LIdle)
    else if (c =? BACKSLASH)%N then Some ([], LEsc acc hi)
    else if (c <? 32)%N then None
    else Some ([], LStr (c :: flush acc hi) None)
  | LEsc acc hi =>
    if (c =? ch "u")%N then Some ([], LHex acc hi 4 0%N)
    else match unescape c with
         | Some c' => Some ([], LStr (c' :: flush acc hi) None)
         | None => None
         end
  | LHex acc hi k v =>
    match hex_val c with
    | Some d =>
      let v' := (16 * v + d)%N in
      match k with
      | 1%nat => Some ([], lex_unicode acc hi v')
      | _ => Some ([], LHex acc hi (pred k) v')
      end
    | None => None
    end
  | LNum st text => lex_num st text c
  | LKw rest t =>
    match rest with
    | r :: rest' =>
      if (c =? r)%N
      then match rest' with
           | [] => Some ([t], LIdle)
           | _ => Some ([], LKw rest' t)
           end
      else None
    | [] => None
    end
  end.

Definition lex_end (s : lex_state) : option (list token) :=
  match s with
  | LIdle => Some []
  | LNum st text => option_map (fun t => [t]) (num_token st text)
  | _ => None
  end.

Fixpoint lex_from (s : lex_state) (cs : str) : option (list token) :=
  match cs with
  | [] => lex_end s
  | c :: cs' =>
    match lex_step s c with
    | Some (ts, s') => option_map (app ts) (lex_from s' cs')
    | None => None
    end
  end.

Definition lex (cs : str) : option (list token) := lex_from LIdle cs.

(** *** Parsing

    The decoder reads the tokens left to right, keeping the containers it
    is inside of on a stack. *)

Inductive frame :=
| FList (items : list json)        (* the items read so far, reversed *)
| FDict (d : list (str * json))    (* an object, between two members *)
| FDictKey (d : list (str * json)) (k : str).
                                   (* an object whose key [k] awaits a value *)

Inductive mode :=
| MValue        (* a value must start here *)
| MFirstItem    (* just after '[': a value, or ']' *)
| MFirstKey     (* just after '{': a key, or '}' *)
| MKey          (* after ',' in an object: a key *)
| MColon        (* after a key: ':' *)
| MAfter        (* after a value in a container: ',' or the closing bracket *)
| MDone (v : json).

(** A value is complete: it goes to the enclosing container, or it is the
    document. *)
Definition put (v : json) (stack : list frame) : option (mode * list frame) :=
  match stack with
  | [] => Some (MDone v, [])
  | FList items :: st => Some (MAfter, FList (v :: items) :: st)
  | FDictKey d k :: st => Some (MAfter, FDict (dict_set d k v) :: st)
  | FDict _ :: _ => None
  end.

Definition start_value (t : token) (stack : list frame)
  : option (mode * list frame) :=
  match t with
  | TLBracket => Some (MFirstItem, FList [] :: stack)
  | TLBrace => Some (MFirstKey, FDict [] :: stack)
  | TString s => put (JStr s) stack
  | TInt z => put (JInt z) stack
  | TFloat f => put (JFloat f) stack
  | TTrue => put (JBool true) stack
  | TFalse => put (JBool false) stack
  | TNull => put JNull stack
  | TRBrace | TRBracket | TComma | TColon => None
  end.

Definition read_key (t : token) (stack : list frame)
  : option (mode * list frame) :=
  match t, stack with
  | TString k, FDict d :: st => Some (MColon, FDictKey d k :: st)
  | _, _ => None
  end.

Definition parse_step (m : mode) (stack : list frame) (t : token)
  : option (mode * list frame) :=
  match m with
  | MValue => start_value t stack
  | MFirstItem =>
    match t, stack with
    | TRBracket, FList items :: st => put (JList (rev items)) st
    | _, _ => start_value t stack
    end
  | MFirstKey =>
    match t, stack with
    | TRBrace, FDict d :: st => put (JDict d) st
    | _, _ => read_key t stack
    end
  | MKey => read_key t stack
  | MColon =>
    match t with
    | TColon => Some (MValue, stack)
    | _ => None
    end
  | MAfter =>
    match t, stack with
    | TComma, FList _ :: _ => Some (MValue, stack)
    | TComma, FDict _ :: _ => Some (MKey, stack)
    | TRBracket, FList items :: st => put (JList (rev items)) st
    | TRBrace, FDict d :: st => put (JDict d) st
    | _, _ => None
    end
  | MDone _ => None
  end.

Fixpoint parse_from (m : mode) (stack : list frame) (ts : list token)
  : option json :=
  match ts with
  | [] => match m, stack with
          | MDone v, [] => Some v
          | _, _ => None
          end
  | t :: ts' =>
    match parse_step m stack t with
    | Some (m', stack') => parse_from m' stack' ts'
    | None => None
    end
  end.

(** What [json.loads(s)] returns for a [str] argument when no limit of
    the interpreter stops it; [None] stands for [json.JSONDecodeError].
    The call itself, limits included, is [loads_call] below. *)
Definition loads (s : str) : option json :=
  match s with
  | 0xFEFF%N :: _ => None
  | _ => match lex s with
         | Some ts => parse_from MValue [] ts
         | None => None
         end
  end.

(** *** The limits of the interpreter

    The decoder converts the text of an integer with [int], which raises
    [ValueError] when the text has more digits than the interpreter allows.
    It converts a number as soon as it has read it and only where a value
    may stand, so what is raised depends on what comes first in the text:
    the long integer, or something malformed. *)

Definition count_digits (text : str) : N :=
  N.of_nat (length (filter is_digit text)).

(** [int(text)] raises: the limit is looked at beyond 640 digits only. *)
Definition exceeds_digit_limit (digits : N) : bool :=
  ((640 <? digits) && (0 <? int_max_str_digits)
   && (int_max_str_digits <? digits))%N.

(** The digits of the integer that is converted when the number read up
    to scanner state [s] ends here: an integer part, also when a dot or an
    exponent mark that nothing completes follows it. *)
Definition int_digits (s : lex_state) : option N :=
  match s with
  | LNum st text =>
    match st with
    | NZero | NInt | NDot => Some (count_digits text)
    | NE | NESign =>
      if existsb (N.eqb (ch ".")) text then None
      else Some (count_digits text)
    | NMinus | NFrac | NExp => None
    end
  | _ => None
  end.

(** Where the decoder scans a value. *)
Definition value_expected (m : mode) : bool :=
  match m with
  | MValue | MFirstItem => true
  | _ => false
  end.

(** In scanner state [s] and parser mode [m], the number that has been
    read is converted, and it is an integer of too many digits. *)
Definition converts_long_integer (s : lex_state) (m : mode) : bool :=
  if value_expected m then
    match int_digits s with
    | Some n => exceeds_digit_limit n
    | None => false
    end
  else false.

(** The tokens of a scanner step start with an integer: the number that
    was being read ends with this step. *)
Definition ends_integer (ts : list token) : bool :=
  match ts with
  | TInt _ :: _ => true
  | _ => false
  end.

Fixpoint advance (m : mode) (stack : list frame) (ts : list token)
  : option (mode * list frame) :=
  match ts with
  | [] => Some (m, stack)
  | t :: ts' =>
    match parse_step m stack t with
    | Some (m', stack') => advance m' stack' ts'
    | None => None
    end
  end.

(** The decoder, reading [cs] from scanner state [s] and parser state
    [(m, stack)], comes to convert an integer that is too long before it
    finds the text malformed or reaches its end. *)
Fixpoint stops_at_long_integer (s : lex_state) (m : mode)
  (stack : list frame) (cs : str) : bool :=
  match cs with
  | [] => converts_long_integer s m
  | c :: cs' =>
    match lex_step s c with
    | Some (ts, s') =>
      if (if ends_integer ts then converts_long_integer s m else false)
      then true
      else
        match advance m stack ts with
        | Some (m', stack') => stops_at_long_integer s' m' stack' cs'
        | None => false
        end
    | None => converts_long_integer s m
    end
  end.

(** The exception other than [JSONDecodeError] that ends [json.loads(s)],
    if any.  [too_deep] is the environment's word on whether the stack is
    exhausted; it is asked for a text with more than one opening bracket
    only. *)
Definition interrupted (too_deep : bool) (s : str) : option exn :=
  match s with
  | 0xFEFF%N :: _ => None
  | _ =>
    if (1 <? brackets s)%nat && too_deep then Some RecursionError
    else if stops_at_long_integer LIdle MValue [] s then Some ValueError
    else None
  end.

(** [json.loads(s)] *)
Definition loads_call (too_deep : bool) (s : str) : result json :=
  match interrupted too_deep s with
  | Some e => Raise e
  | None =>
    match loads s with
    | Some v => Ok v
    | None => Raise JSONDecodeError
    end
  end.

(** *** Writing *)

(** [ensure_ascii=False]: only the quote, the backslash and the control
    characters below U+0020 are escaped. *)
Definition escape_char (c : N) : str :=
  if (c =? QUOTE)%N then [BACKSLASH; QUOTE]
  else if (c =? BACKSLASH)%N then [BACKSLASH; BACKSLASH]
  else if (c =? LF)%N then BACKSLASH :: lit "n"
  else if (c =? CR)%N then BACKSLASH :: lit "r"
  else if (c =? TAB)%N then BACKSLASH :: lit "t"
  else if (c =? FF)%N then BACKSLASH :: lit "f"
  else if (c =? BS)%N then BACKSLASH :: lit "b"
  else if (c <? 32)%N
    then BACKSLASH :: lit "u00" ++ [hex_digit (N.shiftr c 4);
                                    hex_digit (N.land c 15)]
  else [c].

Definition encode_basestring (s : str) : str :=
  QUOTE :: flat_map escape_char s ++ [QUOTE].

(** A line break followed by [level] indentation units of two spaces. *)
Definition newline_indent (level : nat) : str :=
  LF :: concat (repeat (lit "  ") level).

Fixpoint join (sep : str) (parts : list str) : str :=
  match parts with
  | [] => []
  | [p] => p
  | p :: ps => p ++ sep ++ join sep ps
  end.

(** [dumps level v]: the text of [v] nested [level] containers deep, with
    [indent=2], hence the separators [','] and [': ']. *)
Fixpoint dumps (level : nat) (v : json) : str :=
  match v with
  | JNull => lit "null"
  | JBool true => lit "true"
  | JBool false => lit "false"
  | JInt z => int_repr z
  | JFloat f => float_repr f
  | JStr s => encode_basestring s
  | JList [] => lit "[]"
  | JList l =>
    lit "[" ++ newline_indent (S level)
    ++ join (lit "," ++ newline_indent (S level)) (map (dumps (S level)) l)
    ++ newline_indent level ++ lit "]"
  | JDict [] => lit "{}"
  | JDict d =>
    lit "{" ++ newline_indent (S level)
    ++ join (lit "," ++ newline_indent (S level))
            (map (fun kv => encode_basestring (fst kv) ++ lit ": "
                            ++ dumps (S level) (snd kv)) d)
    ++ newline_indent level ++ lit "}"
  end.

End WithEnv.
End Json.

(* ================================================================== *)
(** ** [database.py]: the [data_entries] table *)
Module Database.

(** A row of [data_entries] (class [DataEntry]).  [content_type] and
    [source] are nullable columns. *)
Record DataEntry := {
  id : Z;
  content_hash : str;
  content : str;
  content_type : option str;
  is_verified : bool;
  created_at : Z;
  updated_at : Z;
  source : option str;
  confidence_score : Z
}.

(** What [DataEntry(...)] is given in [create_data_entry]; [id] and the two
    timestamps are filled in when the row is written. *)
Record NewEntry := {
  new_content_hash : str;
  new_content : str;
  new_content_type : option str;
  new_is_verified : bool;
  new_source : option str;
  new_confidence_score : Z
}.

(** The committed rows, in the order they were inserted.  Every session
    ([SessionLocal()]) reads and writes this one table. *)
Definition Session := list DataEntry.

(** Computations over the table that may raise. *)
Definition M (A : Type) := Session -> result A * Session.

Definition ret {A} (a : A) : M A := fun db => (Ok a, db).

Definition raise {A} (e : exn) : M A := fun db => (Raise e, db).

Definition bind {A B} (m : M A) (k : A -> M B) : M B :=
  fun db =>
    match m db with
    | (Ok a, db') => k a db'
    | (Raise e, db') => (Raise e, db')
    end.

(** [try: m except Exception as e: h e] *)
Definition try_except {A} (m : M A) (h : exn -> M A) : M A :=
  fun db =>
    match m db with
    | (Ok a, db') => (Ok a, db')
    | (Raise e, db') => h e db'
    end.

Fixpoint mapM {A B} (f : A -> M B) (l : list A) : M (list B) :=
  match l with
  | [] => ret []
  | a :: l' =>
    bind (f a) (fun b => bind (mapM f l') (fun bs => ret (b :: bs)))
  end.

(** [DataEntry.content_hash == h] *)
Definition has_hash (h : str) (e : DataEntry) : bool :=
  str_eqb (content_hash e) h.

(** [db.query(DataEntry).filter(DataEntry.content_hash == h).first()] *)
Definition first_by_hash (h : str) : M (option DataEntry) :=
  fun db => (Ok (find (has_hash h) db), db).

(** What the [sqlite3] driver binds to a statement: an integer that fits
    64 bits, a text that encodes as UTF-8.  It raises [OverflowError] for
    another integer and [UnicodeEncodeError] for another text, before the
    statement runs. *)
Definition int64 (i : Z) : bool := ((- 2 ^ 63 <=? i) && (i <? 2 ^ 63))%Z.

Definition encodable_opt (o : option str) : bool :=
  match o with
  | Some s => encodable s
  | None => true
  end.

(** [db.query(DataEntry).filter(DataEntry.id == i).first()] *)
Definition first_by_id (i : Z) : M (option DataEntry) :=
  fun db =>
    if int64 i then (Ok (find (fun e => Z.eqb (id e) i) db), db)
    else (Raise OverflowError, db).

(** The integer primary key of the next row: one more than the largest
    in the table. *)
Definition next_id (db : Session) : Z :=
  (1 + fold_right Z.max 0 (map id db))%Z.

(** The two readings of the clock ([datetime.utcnow]) that the defaults
    of [created_at] and [updated_at] take when a row is written. *)
Definition clock := (Z * Z)%type.

Definition stored (i : Z) (now : clock) (n : NewEntry) : DataEntry :=
  {| id := i;
     content_hash := new_content_hash n;
     content := new_content n;
     content_type := new_content_type n;
     is_verified := new_is_verified n;
     created_at := fst now;
     updated_at := snd now;
     source := new_source n;
     confidence_score := new_confidence_score n |}.

(** The texts of a row are ones the driver binds.  [content_hash] is a
    hexadecimal digest and [confidence_score] lies between 0 and 100. *)
Definition bindable (n : NewEntry) : bool :=
  encodable (new_content n) && encodable_opt (new_content_type n)
  && encodable_opt (new_source n).

(** [db.add(e); db.commit(); db.refresh(e)].  The driver binds the values
    of the row to the [INSERT] and raises for one it cannot bind.
    [content_hash] is declared [unique=True]: the commit of a row whose
    hash is already in the table raises.  Either way nothing is
    written. *)
Definition add_commit_refresh (now : clock) (n : NewEntry) : M DataEntry :=
  fun db =>
    if negb (bindable n) then (Raise UnicodeEncodeError, db)
    else if existsb (has_hash (new_content_hash n)) db
    then (Raise IntegrityError, db)
    else let e := stored (next_id db) now n in (Ok e, db ++ [e]).

(** Commits of other sessions, taking place between two statements of
    this one. *)
Definition interleave (others : Session -> Session) : M unit :=
  fun db => (Ok tt, others db).

(** How the engine walks the table for a query without [ORDER BY]: in
    insertion order, or through [idx_content_type_verified], the index on
    [(content_type, is_verified)]. *)
Inductive access_path := TableScan | IndexScan.

(** Rows of one [content_type] as the index lists them: by [is_verified]
    (false before true), then by insertion. *)
Definition index_order (rows : list DataEntry) : list DataEntry :=
  filter (fun e => negb (is_verified e)) rows ++ filter is_verified rows.

(** [.offset(skip).limit(limit)] as SQLite reads them: a negative offset
    skips nothing, a negative limit does not bound the result. *)
Definition offset_limit {A} (skip limit : Z) (l : list A) : list A :=
  let l' := skipn (Z.to_nat skip) l in
  if (limit <? 0)%Z then l' else firstn (Z.to_nat limit) l'.

End Database.

Declare Scope db_scope.
Delimit Scope db_scope with db.
Notation "x <- m ;; k" := (Database.bind m (fun x => k))
  (at level 61, m at next level, right associativity) : db_scope.
Notation "' p <- m ;; k" := (Database.bind m (fun p => k))
  (at level 61, p pattern, m at next level, right associativity) : db_scope.

(* ================================================================== *)
(** ** [services.py]: [DataValidator] *)
Module Services.
Import Database.
Section WithEnv.
Context {E : PyEnv}.
Open Scope db_scope.

(** Generate a BLAKE3 hash of the content. *)
Definition generate_hash (content : bytes) : str := blake3_hexdigest content.

(** Detect the content type using python-magic. *)
Definition detect_content_type (content : bytes) : str :=
  magic_from_buffer content.

(** Validate data and check for duplicates:
    [(is_duplicate, existing_entry, content_hash)]. *)
Definition validate_data (content : bytes) (content_type : option str)
  (source : option str) (metadata : option Json.json)
  : M (bool * option DataEntry * str) :=
  let content_hash := generate_hash content in
  existing_entry <- first_by_hash content_hash ;;
  match existing_entry with
  | Some e => ret (true, Some e, content_hash)
  | None =>
    let content_type :=
      match content_type with
      | None => detect_content_type content
      | Some c => c
      end in
    ret (false, None, content_hash)
  end.

(** "Prepare content for storage": the text that the [try] block of
    [create_data_entry] leaves in [content_str] when it completes. *)
Definition prepare_content (content : bytes) : str :=
  match Utf8.decode content with
  | Some content_str =>
    match Json.loads content_str with
    | Some json_content => Json.dumps 0 json_content
    | None => content_str
    end
  | None => Base64.b64encode content
  end.

(** The [try] block itself: [JSONDecodeError] and [UnicodeDecodeError]
    are handled, any other exception of [json.loads] or [json.dumps]
    leaves it. *)
Definition content_str (content : bytes) : result str :=
  match Utf8.decode content with
  | Some text =>
    match Json.loads_call (content_overflows text) text with
    | Ok json_content => Ok (Json.dumps 0 json_content)
    | Raise JSONDecodeError => Ok text
    | Raise e => Raise e
    end
  | None => Ok (Base64.b64encode content)
  end.

(** Create a new data entry if it doesn't exist.  [others] is what other
    sessions commit between the [SELECT] of [validate_data] and the
    [INSERT] of this call. *)
Definition create_data_entry_among (others : Session -> Session)
  (now : clock)
  (content : bytes) (content_type : option str) (source : option str)
  (metadata : option Json.json) (is_verified : bool) (confidence_score : Z)
  : M DataEntry :=
  '(is_duplicate, existing_entry, content_hash) <-
     validate_data content content_type source metadata ;;
  match is_duplicate, existing_entry with
  | true, Some e => ret e
  | _, _ =>
    let content_type :=
      match content_type with
      | None => detect_content_type content
      | Some c => c
      end in
    match content_str content with
    | Raise e => raise e
    | Ok content_str =>
      let new_entry :=
        {| new_content_hash := content_hash;
           new_content := content_str;
           new_content_type := Some content_type;
           new_is_verified := is_verified;
           new_source := source;
           new_confidence_score :=
             Z.min (Z.max confidence_score 0%Z) 100%Z |} in
      _ <- interleave others ;;
      add_commit_refresh now new_entry
    end
  end.

(** The call with no other session at work. *)
Definition create_data_entry : clock -> bytes -> option str -> option str ->
  option Json.json -> bool -> Z -> M DataEntry :=
  create_data_entry_among (fun db => db).

End WithEnv.
End Services.

(* ================================================================== *)
(** ** [main.py]: the HTTP handlers *)
Module Main.
Import Database.
Section WithEnv.
Context {E : PyEnv}.
Open Scope db_scope.

(** A JSON object of the response. *)
Definition dict := list (str * Json.json).

(** [entry.to_dict()].  [DataEntry] declares no [to_dict], and neither
    does the declarative base it extends: the attribute lookup raises. *)
Definition to_dict (entry : DataEntry) : M dict := raise AttributeError.

(** [json.loads(metadata) if metadata else {}] *)
Definition metadata_dict (metadata : option str) : M Json.json :=
  match metadata with
  | None | Some [] => ret (Json.JDict [])
  | Some text =>
    match Json.loads_call (metadata_overflows text) text with
    | Ok v => ret v
    | Raise e => raise e
    end
  end.

Record check_response := {
  is_duplicate : bool;
  response_content_hash : str;
  existing_entry : option dict
}.

(** [POST /api/check]: check if data already exists in the system. *)
Definition check_data (file : bytes) (source : option str)
  (metadata : option str) : M check_response :=
  try_except
    (md <- metadata_dict metadata ;;
     '(is_dup, existing, content_hash) <-
        Services.validate_data file None source (Some md) ;;
     body <- match existing with
             | Some e => d <- to_dict e ;; ret (Some d)
             | None => ret None
             end ;;
     ret {| is_duplicate := is_dup;
            response_content_hash := content_hash;
            existing_entry := body |})
    (fun _ => raise (HTTPException 400)).

(** [POST /api/submit]: submit new data to the system.
    [file_content_type] is [file.content_type]. *)
Definition submit_data (now : clock) (file : bytes)
  (file_content_type : option str) (source : option str)
  (metadata : option str) (is_verified : bool) (confidence_score : Z)
  : M dict :=
  try_except
    (md <- metadata_dict metadata ;;
     entry <- Services.create_data_entry now file file_content_type source
                (Some md) is_verified confidence_score ;;
     to_dict entry)
    (fun _ => raise (HTTPException 400)).

(** The [WHERE] clause [list_entries] builds: [content_type] is compared
    only when it is a non-empty string, [is_verified] only when [verified]
    is given. *)
Definition matches (content_type : option str) (verified : option bool)
  (e : DataEntry) : bool :=
  match content_type with
  | None | Some [] => true
  | Some c =>
    match Database.content_type e with
    | Some c' => str_eqb c' c
    | None => false
    end
  end
  &&
  match verified with
  | None => true
  | Some v => Bool.eqb (is_verified e) v
  end.

(** The rows of the [WHERE] clause in the order the engine yields them.
    The query names no order; the index can serve it only when
    [content_type] is compared. *)
Definition where_rows (path : access_path) (content_type : option str)
  (verified : option bool) (db : Session) : list DataEntry :=
  let rows := filter (matches content_type verified) db in
  match path, content_type with
  | TableScan, _ | IndexScan, None | IndexScan, Some [] => rows
  | IndexScan, Some _ => index_order rows
  end.

(** The driver binds the parameters of the query in the order of the
    statement: the [content_type] that is compared, then the limit and
    the offset. *)
Definition bind_query (skip limit : Z) (content_type : option str)
  : option exn :=
  if negb (encodable_opt content_type) then Some UnicodeEncodeError
  else if negb (int64 limit && int64 skip) then Some OverflowError
  else None.

(** [entries = query.offset(skip).limit(limit).all()] *)
Definition select_entries (path : access_path) (skip limit : Z)
  (content_type : option str) (verified : option bool)
  : M (list DataEntry) :=
  fun db =>
    match bind_query skip limit content_type with
    | Some e => (Raise e, db)
    | None =>
      (Ok (offset_limit skip limit
             (where_rows path content_type verified db)),
       db)
    end.

(** [GET /api/entries]: list all data entries with optional filtering. *)
Definition list_entries (path : access_path) (skip limit : Z)
  (content_type : option str) (verified : option bool) : M (list dict) :=
  entries <- select_entries path skip limit content_type verified ;;
  mapM to_dict entries.

(** [GET /api/entries/{entry_id}]: get a specific data entry by ID. *)
Definition get_entry (entry_id : Z) : M dict :=
  entry <- first_by_id entry_id ;;
  match entry with
  | None => raise (HTTPException 404)
  | Some e => to_dict e
  end.

End WithEnv.
End Main.

(* ================================================================== *)
(** ** Runs of several calls, and predicates on tables *)
Module Run.
Import Database.
Section WithEnv.
Context {E : PyEnv}.




(** The content type a row gets: the caller's, else the sniffed one. *)
Definition chosen_content_type (content : bytes) (ct : option str) : str :=
  match ct with
  | None => Services.detect_content_type content
  | Some c => c
  end.

(** The payload can be stored under the hints [ct] and [src]: preparing
    its content raises nothing, and the driver binds the texts of the
    row. *)
Definition storable (content : bytes) (ct src : option str) : bool :=
  match Services.content_str content with
  | Ok s =>
    encodable s && encodable (chosen_content_type content ct)
    && encodable_opt src
  | Raise _ => false
  end.

(** The hints alone are texts the driver binds. *)
Definition hints_bindable (content : bytes) (ct src : option str) : bool :=
  encodable (chosen_content_type content ct) && encodable_opt src.

(** The row [create_data_entry] writes for a payload it has not seen. *)
Definition fresh_entry (i : Z) (now : clock) (content : bytes)
  (ct src : option str) (verified : bool) (score : Z) : DataEntry :=
  {| id := i;
     content_hash := Services.generate_hash content;
     content := Services.prepare_content content;
     content_type :=
       Some match ct with
            | None => Services.detect_content_type content
            | Some c => c
            end;
     is_verified := verified;
     created_at := fst now;
     updated_at := snd now;
     source := src;
     confidence_score := Z.min (Z.max score 0%Z) 100%Z |}.


(** The uniqueness constraint on [content_hash]. *)
Definition unique_hashes (db : Session) : Prop :=
  NoDup (map content_hash db).

(** Identifiers grow strictly along a sequence of rows. *)
Definition ascending_ids (rows : list DataEntry) : Prop :=
  StronglySorted (fun a b => (id a < id b)%Z) rows.

(** The tables that calls of [create_data_entry], one at a time, build
    from the empty one. *)
Inductive reachable : Session -> Prop :=
| reachable_empty : reachable []
| reachable_create now content ct src md v cs db :
    reachable db ->
    reachable (snd (Services.create_data_entry now content ct src md v cs
                      db)).

End WithEnv.
End Run.

(* ================================================================== *)
(** ** Sample data used by the examples below *)
Module Sample.
Import Database.

(** An environment to run the model in: the "digest" of a payload is its
    own octets (so distinct payloads have distinct digests), every
    payload is sniffed as [text/plain], a float is kept as its text; [int]
    has its default limit of 4300 digits, and the stack is held to be
    exhausted by a text with more than 900 opening brackets. *)
Definition env : PyEnv :=
  {| pyfloat := str;
     float_of_str := fun s => s;
     float_repr := fun s => s;
     blake3_hexdigest := fun b => map Byte.to_N b;
     magic_from_buffer := fun _ => lit "text/plain";
     int_max_str_digits := 4300;
     content_overflows := fun text => (900 <? brackets text)%nat;
     metadata_overflows := fun text => (900 <? brackets text)%nat |}.

#[local] Existing Instance env.

(** The payload [{"a":1}] and its pretty-printed form. *)
Definition compact_json : bytes :=
  octets (lit "{" ++ [QUOTE] ++ lit "a" ++ [QUOTE] ++ lit ":1}").

Definition pretty_json_text : str :=
  lit "{" ++ [LF] ++ lit "  " ++ [QUOTE] ++ lit "a" ++ [QUOTE]
  ++ lit ": 1" ++ [LF] ++ lit "}".

Definition pretty_json : bytes := octets pretty_json_text.

Definition hello : bytes := blit "hello world".

(** The integer written with 4301 digits 1: a JSON document. *)
Definition long_integer : bytes := octets (repeat (ch "1") 4301).

(** The JSON string ["\ud83d"], eight ASCII characters: it spells a lone
    surrogate. *)
Definition lone_surrogate : bytes :=
  octets (QUOTE :: BACKSLASH :: lit "ud83d" ++ [QUOTE]).

Definition binary : bytes := [x00; x01; xff].

Definition text_plain : str := lit "text/plain".

(** The table after [hello] was submitted at time 1, verified, and then
    the binary payload at time 2, not verified; both are sniffed as
    [text/plain]. *)
Definition two_entries : Session :=
  snd (Services.create_data_entry (2, 2)%Z binary None None None false
         100%Z
         (snd (Services.create_data_entry (1, 1)%Z hello None None None
                 true 100%Z []))).

(** Another session that submits [hello]. *)
Definition other_writer : Session -> Session :=
  fun db =>
    snd (Services.create_data_entry (1, 1)%Z hello None None None true
           100%Z db).


End Sample.

(* ================================================================== *)
(** ** Vocabulary for the handlers and the listing *)
Module Shape.
Import Database.
Section WithEnv.
Context {E : PyEnv}.

(** The [metadata] form field is usable: absent, empty, or a text from
    which [json.loads] returns a document. *)
Definition metadata_parses (metadata : option str) : bool :=
  match metadata with
  | None | Some [] => true
  | Some text =>
    match Json.loads_call (metadata_overflows text) text with
    | Ok _ => true
    | Raise _ => false
    end
  end.

(** The parameters of a listing are ones the driver binds. *)
Definition query_binds (skip limit : Z) (content_type : option str) : bool :=
  encodable_opt content_type && int64 limit && int64 skip.


(** The number of rows the [WHERE] clause of [list_entries] keeps. *)
Definition count_matching (content_type : option str)
  (verified : option bool) (db : Session) : nat :=
  length (filter (Main.matches content_type verified) db).

(** What holds of every row that [create_data_entry] writes. *)
Definition well_formed_row (e : DataEntry) : Prop :=
  (0 <= confidence_score e <= 100)%Z
  /\ content_type e <> None
  /\ exists payload,
      content_hash e = Services.generate_hash payload
      /\ content e = Services.prepare_content payload.

End WithEnv.
End Shape.

(* ================================================================== *)
(** ** Reading stored content back

    The store never decodes what it has stored.  These are the inverse
    maps against which the stored forms are checked. *)
Module Inverse.

(** The numbers below [n], to check a property of octets case by case. *)
Definition below (n : nat) : list N := map N.of_nat (seq 0 n).

Definition octet (n : N) : Prop := (n < 256)%N.

(** The four characters [b64encode] writes for three octets. *)
Definition char0 (a : N) : N := Base64.alphabet (N.shiftr a 2).

Definition char1 (a b : N) : N :=
  Base64.alphabet (N.lor (N.shiftl (N.land a 3) 4) (N.shiftr b 4)).

Definition char2 (b c : N) : N :=
  Base64.alphabet (N.lor (N.shiftl (N.land b 15) 2) (N.shiftr c 6)).

Definition char3 (c : N) : N := Base64.alphabet (N.land c 63).

(** The place of a character in the base64 alphabet. *)
Definition sextet_of (c : N) : N :=
  (if (ch "A" <=? c) && (c <=? ch "Z") then c - ch "A"
   else if (ch "a" <=? c) && (c <=? ch "z") then c - ch "a" + 26
   else if (ch "0" <=? c) && (c <=? ch "9") then c - ch "0" + 52
   else if c =? ch "+" then 62
   else 63)%N.

(** The three octets that four characters stand for. *)
Definition octet0 (c0 c1 : N) : N :=
  (sextet_of c0 * 4 + sextet_of c1 / 16)%N.

Definition octet1 (c1 c2 : N) : N :=
  ((sextet_of c1 mod 16) * 16 + sextet_of c2 / 4)%N.

Definition octet2 (c2 c3 : N) : N :=
  ((sextet_of c2 mod 4) * 64 + sextet_of c3)%N.

(** A character of base64 text: a letter, a digit, [+], [/] or [=]. *)
Definition base64_char (c : N) : bool :=
  ((ch "A" <=? c) && (c <=? ch "Z")
   || (ch "a" <=? c) && (c <=? ch "z")
   || (ch "0" <=? c) && (c <=? ch "9")
   || (c =? ch "+") || (c =? ch "/") || (c =? ch "="))%N.

(** [chr(c).encode('utf-8')]: the octets of a code point. *)
Definition encode_cp (c : N) : list N :=
  (if c <? 0x80 then [c]
   else if c <? 0x800 then [0xC0 + c / 64; 0x80 + c mod 64]
   else if c <? 0x10000
     then [0xE0 + c / 64 / 64; 0x80 + (c / 64) mod 64; 0x80 + c mod 64]
   else [0xF0 + c / 64 / 64 / 64; 0x80 + (c / 64 / 64) mod 64;
         0x80 + (c / 64) mod 64; 0x80 + c mod 64])%N.

(** [s.encode('utf-8')] *)
Definition encode_text (s : str) : list N := flat_map encode_cp s.

End Inverse.

(* ================================================================== *)
(** ** Documents and the text written for them *)
Module Document.
Section WithEnv.
Context {E : PyEnv}.
Import Json.

(** Parts joined by a separator. *)
Fixpoint join_with {A} (sep : list A) (parts : list (list A)) : list A :=
  match parts with
  | [] => []
  | [p] => p
  | p :: ps => p ++ sep ++ join_with sep ps
  end.

(** The tokens of the text [json.dumps] writes for a document. *)
Fixpoint tokens_of (v : json) : list token :=
  match v with
  | JNull => [TNull]
  | JBool true => [TTrue]
  | JBool false => [TFalse]
  | JInt z => [TInt z]
  | JFloat f => [TFloat f]
  | JStr s => [TString s]
  | JList l => TLBracket :: join_with [TComma] (map tokens_of l) ++ [TRBracket]
  | JDict d =>
    TLBrace
    :: join_with [TComma]
         (map (fun kv => TString (fst kv) :: TColon :: tokens_of (snd kv)) d)
    ++ [TRBrace]
  end.

#[local] Unset Elimination Schemes.

(** A document without floating-point numbers. *)
Inductive float_free : json -> Prop :=
| float_free_null : float_free JNull
| float_free_bool b : float_free (JBool b)
| float_free_int z : float_free (JInt z)
| float_free_str s : float_free (JStr s)
| float_free_list l : Forall float_free l -> float_free (JList l)
| float_free_dict d :
    Forall (fun kv => float_free (snd kv)) d -> float_free (JDict d).

(** A document in which no object holds a key twice. *)
Inductive keys_distinct : json -> Prop :=
| keys_distinct_null : keys_distinct JNull
| keys_distinct_bool b : keys_distinct (JBool b)
| keys_distinct_int z : keys_distinct (JInt z)
| keys_distinct_float f : keys_distinct (JFloat f)
| keys_distinct_str s : keys_distinct (JStr s)
| keys_distinct_list l : Forall keys_distinct l -> keys_distinct (JList l)
| keys_distinct_dict d :
    NoDup (map fst d) ->
    Forall (fun kv => keys_distinct (snd kv)) d ->
    keys_distinct (JDict d).

#[local] Set Elimination Schemes.

(** What may follow a value in the text [json.dumps] writes: nothing, a
    comma or a line break. *)
Definition closes_value (rest : str) : Prop :=
  match rest with
  | [] => True
  | c :: _ => c = ch "," \/ c = LF
  end.

(** A digit of a number. *)
Definition digit (c : N) : Prop := is_digit c = true.

(** The text of an item, as far as the scanner is concerned: followed by
    what may follow a value, it yields the tokens of the item and leaves
    the scanner between tokens. *)
Definition scans_as {A} (text : A -> str) (toks : A -> list token) (x : A)
  : Prop :=
  forall rest, closes_value rest ->
    lex_from LIdle (text x ++ rest)
    = option_map (app (toks x)) (lex_from LIdle rest).

(** Tokens that the parser, where it expects a value, reads as [v]. *)
Definition reads_as (toks : list token) (v : json) : Prop :=
  forall m stack ts, m = MValue \/ m = MFirstItem ->
    parse_from m stack (toks ++ ts)
    = match put v stack with
      | Some (m', stack') => parse_from m' stack' ts
      | None => None
      end.

(** Parser states that hold only such documents. *)
Definition frame_ok (f : frame) : Prop :=
  match f with
  | FList items => Forall keys_distinct items
  | FDict d | FDictKey d _ =>
    NoDup (map fst d) /\ Forall (fun kv => keys_distinct (snd kv)) d
  end.

Definition mode_ok (m : mode) : Prop :=
  match m with
  | MDone v => keys_distinct v
  | _ => True
  end.

End WithEnv.
End Document.

(* ================================================================== *)
(** * Properties *)

Section Properties.
Import Database.
Context {E : PyEnv}.
Open Scope Z_scope.

(** ** Strings and lists *)

Lemma str_eqb_eq (a b : str) : str_eqb a b = true <-> a = b.
Proof.
  revert b; induction a as [|x a IH]; intros [|y b]; simpl;
    try (split; [discriminate | congruence]); [tauto|].
  rewrite andb_true_iff, N.eqb_eq, IH.
  split; [intros [-> ->]; reflexivity | intros H; injection H; auto].
Qed.

Lemma str_eqb_refl (a : str) : str_eqb a a = true.
Proof. apply str_eqb_eq; reflexivity. Qed.

Lemma str_eqb_neq (a b : str) : str_eqb a b = false <-> a <> b.
Proof.
  rewrite <- str_eqb_eq. destruct (str_eqb a b); split; congruence.
Qed.

Lemma find_none_existsb {A} (p : A -> bool) (l : list A) :
  find p l = None -> existsb p l = false.
Proof.
  induction l as [|a l IH]; simpl; [reflexivity|].
  destruct (p a); [discriminate | exact IH].
Qed.

Lemma find_app_none {A} (p : A -> bool) (l : list A) (a : A) :
  find p l = None -> p a = true -> find p (l ++ [a]) = Some a.
Proof.
  induction l as [|b l IH]; simpl; intros Hn Hp.
  - rewrite Hp; reflexivity.
  - destruct (p b); [discriminate | auto].
Qed.

Lemma find_app_miss {A} (p : A -> bool) (l : list A) (a : A) :
  find p l = None -> p a = false -> find p (l ++ [a]) = None.
Proof.
  induction l as [|b l IH]; simpl; intros Hn Hp.
  - rewrite Hp; reflexivity.
  - destruct (p b); [discriminate | auto].
Qed.


(** ** The table *)

Lemma first_by_hash_sound (h : str) (db : Session) (e : DataEntry) :
  find (has_hash h) db = Some e -> In e db /\ content_hash e = h.
Proof.
  intros H. apply find_some in H as [Hin Hh].
  split; [exact Hin | apply str_eqb_eq; exact Hh].
Qed.

Lemma first_by_hash_none (h : str) (db : Session) :
  find (has_hash h) db = None ->
  forall e, In e db -> content_hash e <> h.
Proof.
  intros H e Hin. apply str_eqb_neq.
  exact (find_none _ _ H e Hin).
Qed.

Lemma next_id_above (db : Session) :
  forall e, In e db -> id e < next_id db.
Proof.
  unfold next_id. induction db as [|a db IH]; cbn [fold_right map In];
    [tauto|].
  intros e [<-|Hin]; [lia|]. specialize (IH e Hin). lia.
Qed.

Lemma add_commit_refresh_fresh (now : clock) (n : NewEntry) (db : Session) :
  bindable n = true ->
  find (has_hash (new_content_hash n)) db = None ->
  add_commit_refresh now n db
  = (Ok (stored (next_id db) now n), db ++ [stored (next_id db) now n]).
Proof.
  intros Hb H. unfold add_commit_refresh.
  rewrite Hb, (find_none_existsb _ _ H). reflexivity.
Qed.

Lemma add_commit_refresh_conflict (now : clock) (n : NewEntry)
  (db : Session) (e : DataEntry) :
  bindable n = true ->
  In e db -> content_hash e = new_content_hash n ->
  add_commit_refresh now n db = (Raise IntegrityError, db).
Proof.
  intros Hb Hin Hh. unfold add_commit_refresh. rewrite Hb. cbn [negb].
  replace (existsb _ db) with true; [reflexivity|].
  symmetry. apply existsb_exists. exists e. split; [exact Hin|].
  apply str_eqb_eq. exact Hh.
Qed.

(** ** Preparing the content *)

(** [json.loads] is ended by [RecursionError] or [ValueError] only. *)
Lemma interrupted_kind (too_deep : bool) (s : str) (x : exn) :
  Json.interrupted too_deep s = Some x ->
  x = RecursionError \/ x = ValueError.
Proof.
  unfold Json.interrupted.
  destruct s as [|c s]; [|destruct (N.eq_dec c 0xFEFF) as [->|Hc]].
  - destruct (_ && _); [intros [= <-]; auto|].
    destruct (Json.stops_at_long_integer _ _ _ _); [|discriminate].
    intros [= <-]; auto.
  - discriminate.
  - intros H.
    assert (H' : (if (1 <? brackets (c :: s))%nat && too_deep
                  then Some RecursionError
                  else if Json.stops_at_long_integer Json.LIdle Json.MValue
                            [] (c :: s)
                       then Some ValueError else None) = Some x).
    { destruct c as [|p]; [exact H|].
      repeat (destruct p as [p|p|]; try exact H). congruence. }
    clear H. destruct (_ && _); [injection H' as <-; auto|].
    destruct (Json.stops_at_long_integer _ _ _ _); [|discriminate].
    injection H' as <-; auto.
Qed.

(** When the [try] block completes, it leaves the prepared content. *)
Lemma content_str_prepared (content : bytes) (s : str) :
  Services.content_str content = Ok s ->
  s = Services.prepare_content content.
Proof.
  unfold Services.content_str, Services.prepare_content, Json.loads_call.
  destruct (Utf8.decode content) as [text|]; [|congruence].
  destruct (Json.interrupted _ text) as [x|] eqn:Hi.
  - destruct (interrupted_kind _ _ _ Hi) as [-> | ->]; discriminate.
  - destruct (Json.loads text); congruence.
Qed.

(** It raises nothing but [RecursionError] and [ValueError]. *)
Lemma content_str_raises (content : bytes) (x : exn) :
  Services.content_str content = Raise x ->
  x = RecursionError \/ x = ValueError.
Proof.
  unfold Services.content_str, Json.loads_call.
  destruct (Utf8.decode content) as [text|]; [|discriminate].
  destruct (Json.interrupted _ text) as [y|] eqn:Hi.
  - destruct (interrupted_kind _ _ _ Hi) as [-> | ->];
      intros [= <-]; auto.
  - destruct (Json.loads text); discriminate.
Qed.

Lemma storable_prepared (content : bytes) (ct src : option str) :
  Run.storable content ct src = true ->
  Services.content_str content = Ok (Services.prepare_content content)
  /\ encodable (Services.prepare_content content) = true
  /\ Run.hints_bindable content ct src = true.
Proof.
  unfold Run.storable, Run.hints_bindable.
  destruct (Services.content_str content) as [s|x] eqn:Hc; [|discriminate].
  rewrite (content_str_prepared _ _ Hc) in *.
  rewrite <- andb_assoc, andb_true_iff. intros [H1 H2]. auto.
Qed.

(** ** [validate_data] and [create_data_entry], step by step *)

Lemma validate_data_run content ct src md (db : Session) :
  Services.validate_data content ct src md db
  = (Ok match find (has_hash (Services.generate_hash content)) db with
        | Some e => (true, Some e, Services.generate_hash content)
        | None => (false, None, Services.generate_hash content)
        end, db).
Proof.
  unfold Services.validate_data, bind, first_by_hash.
  destruct (find _ db); reflexivity.
Qed.

Lemma create_among_found others now content ct src md v cs db e :
  find (has_hash (Services.generate_hash content)) db = Some e ->
  Services.create_data_entry_among others now content ct src md v cs db
  = (Ok e, db).
Proof.
  intros H. unfold Services.create_data_entry_among, bind.
  rewrite validate_data_run, H. reflexivity.
Qed.

Lemma create_among_fresh others now content ct src md v cs db :
  find (has_hash (Services.generate_hash content)) db = None ->
  Services.create_data_entry_among others now content ct src md v cs db
  = match Services.content_str content with
    | Ok s =>
      add_commit_refresh now
        {| new_content_hash := Services.generate_hash content;
           new_content := s;
           new_content_type := Some (Run.chosen_content_type content ct);
           new_is_verified := v;
           new_source := src;
           new_confidence_score := Z.min (Z.max cs 0) 100 |}
        (others db)
    | Raise x => (Raise x, db)
    end.
Proof.
  intros H. unfold Services.create_data_entry_among, bind.
  rewrite validate_data_run, H. cbn beta iota.
  destruct (Services.content_str content); reflexivity.
Qed.

(** The row of a storable payload reaches the [INSERT]. *)
Lemma create_among_storable others now content ct src md v cs db :
  find (has_hash (Services.generate_hash content)) db = None ->
  Run.storable content ct src = true ->
  bindable
    {| new_content_hash := Services.generate_hash content;
       new_content := Services.prepare_content content;
       new_content_type := Some (Run.chosen_content_type content ct);
       new_is_verified := v;
       new_source := src;
       new_confidence_score := Z.min (Z.max cs 0) 100 |} = true
  /\ Services.create_data_entry_among others now content ct src md v cs db
     = add_commit_refresh now
         {| new_content_hash := Services.generate_hash content;
            new_content := Services.prepare_content content;
            new_content_type := Some (Run.chosen_content_type content ct);
            new_is_verified := v;
            new_source := src;
            new_confidence_score := Z.min (Z.max cs 0) 100 |}
         (others db).
Proof.
  intros Hf Hs.
  destruct (storable_prepared _ _ _ Hs) as (Hc & He & Hh).
  split.
  - unfold bindable, Run.hints_bindable in *.
    cbn [new_content new_content_type new_source encodable_opt].
    rewrite He, <- andb_assoc, Hh. reflexivity.
  - rewrite (create_among_fresh _ _ _ _ _ _ _ _ _ Hf), Hc. reflexivity.
Qed.

Lemma create_found now content ct src md v cs db e :
  find (has_hash (Services.generate_hash content)) db = Some e ->
  Services.create_data_entry now content ct src md v cs db = (Ok e, db).
Proof. apply create_among_found. Qed.

Lemma create_fresh now content ct src md v cs db :
  find (has_hash (Services.generate_hash content)) db = None ->
  Run.storable content ct src = true ->
  Services.create_data_entry now content ct src md v cs db
  = (Ok (Run.fresh_entry (next_id db) now content ct src v cs),
     db ++ [Run.fresh_entry (next_id db) now content ct src v cs]).
Proof.
  intros H Hs. unfold Services.create_data_entry.
  destruct (create_among_storable (fun db => db) now content ct src md v cs
              db H Hs) as [Hb ->].
  rewrite add_commit_refresh_fresh by assumption. reflexivity.
Qed.

(** A payload that is not storable is refused, and nothing is written. *)
Lemma create_refused now content ct src md v cs db :
  find (has_hash (Services.generate_hash content)) db = None ->
  Run.storable content ct src = false ->
  exists x,
    Services.create_data_entry now content ct src md v cs db = (Raise x, db)
    /\ (x = RecursionError \/ x = ValueError \/ x = UnicodeEncodeError).
Proof.
  intros H Hs. unfold Services.create_data_entry.
  rewrite (create_among_fresh _ _ _ _ _ _ _ _ _ H).
  unfold Run.storable in Hs.
  destruct (Services.content_str content) as [s|x] eqn:Hc.
  - exists UnicodeEncodeError. split; [|auto].
    unfold add_commit_refresh, bindable.
    cbn [new_content new_content_type new_source encodable_opt].
    rewrite Hs. reflexivity.
  - exists x. split; [reflexivity|].
    destruct (content_str_raises _ _ Hc); auto.
Qed.

(** The three ways a sequential call ends. *)
Lemma create_cases now content ct src md v cs (db : Session) :
  (exists e,
     find (has_hash (Services.generate_hash content)) db = Some e
     /\ Services.create_data_entry now content ct src md v cs db
        = (Ok e, db))
  \/ (find (has_hash (Services.generate_hash content)) db = None
      /\ Run.storable content ct src = true
      /\ Services.create_data_entry now content ct src md v cs db
         = (Ok (Run.fresh_entry (next_id db) now content ct src v cs),
            db ++ [Run.fresh_entry (next_id db) now content ct src v cs]))
  \/ (find (has_hash (Services.generate_hash content)) db = None
      /\ Run.storable content ct src = false
      /\ exists x,
          Services.create_data_entry now content ct src md v cs db
          = (Raise x, db)).
Proof.
  destruct (find (has_hash (Services.generate_hash content)) db)
    as [e|] eqn:Hf.
  - left. exists e. split; [reflexivity | apply create_found; exact Hf].
  - right. destruct (Run.storable content ct src) eqn:Hs.
    + left. split; [reflexivity|]. split; [reflexivity|].
      apply create_fresh; assumption.
    + right. split; [reflexivity|]. split; [reflexivity|].
      destruct (create_refused now content ct src md v cs db Hf Hs)
        as (x & Hx & _).
      exists x. exact Hx.
Qed.

(** What a call returns is afterwards the entry found under the hash of
    the payload. *)
Lemma create_returned now content ct src md v cs db e :
  fst (Services.create_data_entry now content ct src md v cs db) = Ok e ->
  content_hash e = Services.generate_hash content
  /\ find (has_hash (Services.generate_hash content))
       (snd (Services.create_data_entry now content ct src md v cs db))
     = Some e.
Proof.
  destruct (create_cases now content ct src md v cs db)
    as [(e0 & Hf & ->) | [(Hf & _ & ->) | (_ & _ & x & ->)]];
    cbn [fst snd]; intros Hret; try discriminate; injection Hret as <-.
  - split; [apply (first_by_hash_sound _ _ _ Hf) | exact Hf].
  - split; [reflexivity|].
    apply find_app_none; [exact Hf|]. apply str_eqb_refl.
Qed.

Lemma unique_hash_first (db : Session) (e : DataEntry) :
  Run.unique_hashes db -> In e db ->
  find (has_hash (content_hash e)) db = Some e.
Proof.
  unfold Run.unique_hashes.
  induction db as [|a db IH]; cbn [map find In]; [tauto|].
  intros Hnd Hin. inversion Hnd as [|? ? Hnotin Hnd']; subst.
  destruct Hin as [->|Hin].
  - unfold has_hash at 1. rewrite str_eqb_refl. reflexivity.
  - destruct (has_hash (content_hash e) a) eqn:Ha; [|auto].
    exfalso. apply Hnotin. apply str_eqb_eq in Ha. rewrite Ha.
    apply in_map. exact Hin.
Qed.

(** ** The duplicate check *)

(** C6. [validate_data] only reads: the table is the same after the call;
    it answers [(True, entry, hash)] with a stored entry of that hash
    exactly when the table holds one, and [(False, None, hash)] exactly
    when it holds none. *)
Theorem validate_data_is_a_pure_read content ct src md (db : Session) :
  let h := Services.generate_hash content in
  let out := Services.validate_data content ct src md db in
  snd out = db
  /\ ((exists e, In e db /\ content_hash e = h)
      <-> (exists e, fst out = Ok (true, Some e, h)
                     /\ In e db /\ content_hash e = h))
  /\ ((forall e, In e db -> content_hash e <> h)
      <-> fst out = Ok (false, None, h)).
Proof.
  intros h out. subst out. rewrite validate_data_run. cbn [fst snd].
  fold h. destruct (find (has_hash h) db) as [e|] eqn:Hf.
  - destruct (first_by_hash_sound _ _ _ Hf) as [Hin Hh].
    split; [reflexivity|]. split; split.
    + intros _. exists e. auto.
    + intros (e' & _ & Hin' & Hh'). eauto.
    + intros Hno. destruct (Hno e Hin Hh).
    + discriminate.
  - pose proof (first_by_hash_none _ _ Hf) as Hno.
    split; [reflexivity|]. split; split.
    + intros (e & Hin & Hh). destruct (Hno e Hin Hh).
    + intros (e & Heq & _). discriminate.
    + reflexivity.
    + intros _. exact Hno.
Qed.

(** C7. The answer of [validate_data] does not depend on the
    [content_type], [source] and [metadata] it is given; and once a
    submission of the payload under some hints has returned an entry,
    checking the same bytes under any other hints reports a duplicate of
    that entry, and submitting them again under other hints and flags
    returns that entry and writes nothing. *)
Theorem validate_data_ignores_hints content ct1 src1 md1 ct2 src2 md2
  now v cs now' v' cs' (db : Session) :
  Services.validate_data content ct1 src1 md1 db
  = Services.validate_data content ct2 src2 md2 db
  /\ forall e,
      fst (Services.create_data_entry now content ct1 src1 md1 v cs db)
      = Ok e ->
      Services.validate_data content ct2 src2 md2
        (snd (Services.create_data_entry now content ct1 src1 md1 v cs db))
      = (Ok (true, Some e, Services.generate_hash content),
         snd (Services.create_data_entry now content ct1 src1 md1 v cs db))
      /\ Services.create_data_entry now' content ct2 src2 md2 v' cs'
           (snd (Services.create_data_entry now content ct1 src1 md1 v cs
                   db))
         = (Ok e,
            snd (Services.create_data_entry now content ct1 src1 md1 v cs
                   db)).
Proof.
  split.
  - rewrite !validate_data_run. reflexivity.
  - intros e Hret.
    destruct (create_returned now content ct1 src1 md1 v cs db e Hret)
      as [_ Hfind].
    split; [rewrite validate_data_run, Hfind; reflexivity|].
    apply create_found. exact Hfind.
Qed.

(** ** Submitting a duplicate *)

(** C10. When the table (with its hashes unique) already holds an entry
    for the bytes, [create_data_entry] returns that very entry, so its
    [content], [content_type], [source], [is_verified] and
    [confidence_score] are the stored ones whatever the new call passes,
    and the table is left as it was. *)
Theorem duplicate_submission_keeps_stored_entry now content ct src md v cs
  (db : Session) (e : DataEntry) :
  Run.unique_hashes db ->
  In e db ->
  content_hash e = Services.generate_hash content ->
  Services.create_data_entry now content ct src md v cs db = (Ok e, db).
Proof.
  intros Hu Hin Hh. apply create_found. rewrite <- Hh.
  apply unique_hash_first; assumption.
Qed.

(** ** Identity *)

(** C3. The hash of an entry that [create_data_entry] returns is the
    digest of the raw bytes the call was given, and the table holds the
    entry under that hash: the entries that two calls with the same bytes
    return, on any tables and under any hints, carry that same hash,
    whatever the stored representation of the content is. *)
Theorem content_hash_is_digest_of_raw_bytes content
  now1 ct1 src1 md1 v1 cs1 (db1 : Session)
  now2 ct2 src2 md2 v2 cs2 (db2 : Session) (e1 e2 : DataEntry) :
  fst (Services.create_data_entry now1 content ct1 src1 md1 v1 cs1 db1)
  = Ok e1 ->
  fst (Services.create_data_entry now2 content ct2 src2 md2 v2 cs2 db2)
  = Ok e2 ->
  content_hash e1 = Services.generate_hash content
  /\ content_hash e2 = content_hash e1
  /\ find (has_hash (Services.generate_hash content))
       (snd (Services.create_data_entry now1 content ct1 src1 md1 v1 cs1
               db1))
     = Some e1.
Proof.
  intros H1 H2.
  destruct (create_returned _ _ _ _ _ _ _ _ _ H1) as [Hh1 Hf1].
  destruct (create_returned _ _ _ _ _ _ _ _ _ H2) as [Hh2 _].
  split; [exact Hh1|]. split; [congruence | exact Hf1].
Qed.

(** ** New entries *)

(** C5. Whatever [confidence_score] the caller passes with a payload that
    is not stored yet and can be stored under the hints given, the call
    succeeds and the row it writes carries the score clamped to [0, 100]:
    0 for a negative score, 100 for a score above 100.  The score has no
    part in whether the payload can be stored.  [submit_data] hands the
    form value over unchanged, so it writes that same row. *)
Theorem confidence_score_is_clamped now content ct src md v cs
  (db : Session) :
  find (has_hash (Services.generate_hash content)) db = None ->
  Run.storable content ct src = true ->
  exists e,
    Services.create_data_entry now content ct src md v cs db
    = (Ok e, db ++ [e])
    /\ snd (Main.submit_data now content ct src None v cs db) = db ++ [e]
    /\ 0 <= confidence_score e <= 100
    /\ (cs < 0 -> confidence_score e = 0)
    /\ (100 < cs -> confidence_score e = 100)
    /\ (0 <= cs <= 100 -> confidence_score e = cs).
Proof.
  intros Hf Hs. eexists. split; [apply create_fresh; assumption|].
  split.
  - unfold Main.submit_data, try_except, bind, Main.metadata_dict, ret.
    rewrite (create_fresh _ _ _ _ _ _ _ _ Hf Hs). reflexivity.
  - cbn [confidence_score Run.fresh_entry]. lia.
Qed.

(** C4, at the input where it fails.  With the default limit of 4300
    digits, the payload of 4301 digits 1 (UTF-8 text, and a JSON number)
    is not normalized: [json.loads] raises [ValueError], which is not the
    [JSONDecodeError] that the [try] block handles.  [create_data_entry]
    raises it and stores nothing; [submit_data] answers 400. *)
Theorem long_integer_is_not_normalized now ct src md v cs (db : Session) :
  int_max_str_digits = 4300%N ->
  find (has_hash (Services.generate_hash Sample.long_integer)) db = None ->
  Utf8.decode Sample.long_integer = Some (repeat (ch "1") 4301)
  /\ (exists z, Json.loads (repeat (ch "1") 4301) = Some (Json.JInt z))
  /\ Services.content_str Sample.long_integer = Raise ValueError
  /\ Services.create_data_entry now Sample.long_integer ct src md v cs db
     = (Raise ValueError, db)
  /\ Main.submit_data now Sample.long_integer ct src None v cs db
     = (Raise (HTTPException 400), db).
Proof.
  intros Hlim Hf.
  assert (Hd : Utf8.decode Sample.long_integer
               = Some (repeat (ch "1") 4301))
    by (vm_compute; reflexivity).
  assert (Hc : Services.content_str Sample.long_integer = Raise ValueError).
  { unfold Services.content_str. rewrite Hd.
    unfold Json.loads_call, Json.interrupted.
    replace (brackets (repeat (ch "1") 4301)) with 0%nat
      by (vm_compute; reflexivity).
    cbn [Nat.ltb Nat.leb andb repeat].
    replace (Json.stops_at_long_integer Json.LIdle Json.MValue []
               (repeat (ch "1") 4301))
      with (Json.exceeds_digit_limit 4301)
      by (vm_compute; reflexivity).
    unfold Json.exceeds_digit_limit. rewrite Hlim. reflexivity. }
  assert (Hrun : forall md',
             Services.create_data_entry now Sample.long_integer ct src
               md' v cs db = (Raise ValueError, db)).
  { intros md'. unfold Services.create_data_entry.
    rewrite (create_among_fresh _ _ _ _ _ _ _ _ _ Hf), Hc. reflexivity. }
  split; [exact Hd|]. split; [|split; [exact Hc|split; [apply Hrun|]]].
  - eexists. vm_compute. reflexivity.
  - unfold Main.submit_data, try_except, bind, Main.metadata_dict, ret.
    rewrite Hrun. reflexivity.
Qed.

(** ** The race between the check and the insert *)

(** C1, as the code has it.  When the check found no entry and another
    session then commits an entry with the same hash before this call's
    insert of a row that the storage would take, the insert is refused
    and [create_data_entry] raises that refusal ([IntegrityError]):
    nothing is read again, nothing is returned, and this call adds no
    row. *)
Theorem insert_conflict_is_raised others now content ct src md v cs
  (db : Session) (e : DataEntry) :
  find (has_hash (Services.generate_hash content)) db = None ->
  Run.storable content ct src = true ->
  In e (others db) ->
  content_hash e = Services.generate_hash content ->
  Services.create_data_entry_among others now content ct src md v cs db
  = (Raise IntegrityError, others db).
Proof.
  intros Hf Hs Hin Hh.
  destruct (create_among_storable others now content ct src md v cs db
              Hf Hs) as [Hb ->].
  apply add_commit_refresh_conflict with (e := e);
    [exact Hb | exact Hin | exact Hh].
Qed.

(** ** Byte-exact deduplication *)

Lemma two_fresh_payloads now1 content1 ct1 src1 md1 v1 cs1
  now2 content2 ct2 src2 md2 v2 cs2 (db : Session) :
  find (has_hash (Services.generate_hash content1)) db = None ->
  find (has_hash (Services.generate_hash content2)) db = None ->
  Services.generate_hash content1 <> Services.generate_hash content2 ->
  Run.storable content1 ct1 src1 = true ->
  Run.storable content2 ct2 src2 = true ->
  exists e1 e2,
    Services.create_data_entry now1 content1 ct1 src1 md1 v1 cs1 db
    = (Ok e1, db ++ [e1])
    /\ Services.create_data_entry now2 content2 ct2 src2 md2 v2 cs2
         (db ++ [e1])
       = (Ok e2, db ++ [e1; e2])
    /\ content e1 = Services.prepare_content content1
    /\ content e2 = Services.prepare_content content2
    /\ content_hash e1 = Services.generate_hash content1
    /\ content_hash e2 = Services.generate_hash content2
    /\ id e1 < id e2.
Proof.
  intros H1 H2 Hne Hs1 Hs2.
  pose (e1 := Run.fresh_entry (next_id db) now1 content1 ct1 src1 v1 cs1).
  assert (H2' : find (has_hash (Services.generate_hash content2))
                  (db ++ [e1]) = None).
  { apply find_app_miss; [exact H2|]. apply str_eqb_neq. exact Hne. }
  exists e1. eexists.
  split; [apply create_fresh; assumption|].
  split; [rewrite (create_fresh _ _ _ _ _ _ _ _ H2' Hs2), <- app_assoc;
          reflexivity|].
  cbn [content content_hash id Run.fresh_entry e1].
  repeat split.
  apply (next_id_above (db ++ [e1]) e1).
  apply in_or_app. right. left. reflexivity.
Qed.

(** Both sample documents are prepared without an exception, in any
    environment: they have one opening brace and no long integer. *)
Lemma sample_documents_are_prepared :
  Services.content_str Sample.compact_json = Ok Sample.pretty_json_text
  /\ Services.content_str Sample.pretty_json = Ok Sample.pretty_json_text.
Proof. split; vm_compute; reflexivity. Qed.

(** C9. Deduplication compares bytes, not stored text: the compact
    document [{"a":1}] and its pretty-printed form are different payloads
    with the same stored content; when their digests differ, neither is
    stored yet and the hints are texts the storage takes, submitting one
    after the other stores two entries, with different identifiers and
    hashes and the same [content].  The insert checks [content_hash]
    only. *)
Theorem same_content_distinct_entries now1 ct1 src1 md1 v1 cs1
  now2 ct2 src2 md2 v2 cs2 (db : Session) :
  Services.generate_hash Sample.compact_json
  <> Services.generate_hash Sample.pretty_json ->
  find (has_hash (Services.generate_hash Sample.compact_json)) db = None ->
  find (has_hash (Services.generate_hash Sample.pretty_json)) db = None ->
  Run.hints_bindable Sample.compact_json ct1 src1 = true ->
  Run.hints_bindable Sample.pretty_json ct2 src2 = true ->
  Sample.compact_json <> Sample.pretty_json
  /\ exists e1 e2,
      Services.create_data_entry now1 Sample.compact_json ct1 src1 md1 v1 cs1
        db
      = (Ok e1, db ++ [e1])
      /\ Services.create_data_entry now2 Sample.pretty_json ct2 src2 md2 v2
           cs2 (db ++ [e1])
         = (Ok e2, db ++ [e1; e2])
      /\ content e1 = Sample.pretty_json_text
      /\ content e2 = Sample.pretty_json_text
      /\ content_hash e1 <> content_hash e2
      /\ id e1 <> id e2.
Proof.
  intros Hne H1 H2 Hb1 Hb2. split; [discriminate|].
  destruct sample_documents_are_prepared as [Hc1 Hc2].
  assert (Hs1 : Run.storable Sample.compact_json ct1 src1 = true).
  { unfold Run.storable, Run.hints_bindable in *.
    rewrite Hc1, <- andb_assoc, Hb1. reflexivity. }
  assert (Hs2 : Run.storable Sample.pretty_json ct2 src2 = true).
  { unfold Run.storable, Run.hints_bindable in *.
    rewrite Hc2, <- andb_assoc, Hb2. reflexivity. }
  destruct (two_fresh_payloads now1 Sample.compact_json ct1 src1 md1 v1 cs1
              now2 Sample.pretty_json ct2 src2 md2 v2 cs2 db H1 H2 Hne
              Hs1 Hs2)
    as (e1 & e2 & R1 & R2 & C1 & C2 & Hh1 & Hh2 & Hid).
  exists e1, e2.
  split; [exact R1|]. split; [exact R2|].
  split; [rewrite C1; vm_compute; reflexivity|].
  split; [rewrite C2; vm_compute; reflexivity|].
  split; [congruence | lia].
Qed.

(** ** Repeated submission *)





(** The constraint on [content_hash] holds of the empty table and is kept
    by every call. *)
Lemma create_keeps_unique_hashes now content ct src md v cs (db : Session) :
  Run.unique_hashes db ->
  Run.unique_hashes
    (snd (Services.create_data_entry now content ct src md v cs db)).
Proof.
  intros Hu.
  destruct (create_cases now content ct src md v cs db)
    as [(e & _ & ->) | [(Hf & _ & ->) | (_ & _ & x & ->)]];
    cbn [snd]; try exact Hu.
  unfold Run.unique_hashes in *. rewrite map_app. cbn [map].
  apply NoDup_app; repeat split; [exact Hu | repeat constructor; tauto|].
  intros h Hin [<-|[]]. apply in_map_iff in Hin as (x & Hx & Hin).
  exact (first_by_hash_none _ _ Hf x Hin Hx).
Qed.


(** ** Listing *)

Section Sortedness.
Context {A : Type} (R : A -> A -> Prop).




Lemma sorted_snoc (l : list A) (a : A) :
  StronglySorted R l -> (forall x, In x l -> R x a) ->
  StronglySorted R (l ++ [a]).
Proof.
  induction 1 as [|b l Hs IH Hall]; cbn [app]; intros Hlt.
  - repeat constructor.
  - constructor; [apply IH; intros x Hx; apply Hlt; right; exact Hx|].
    apply Forall_app. split; [exact Hall|].
    constructor; [apply Hlt; left; reflexivity | constructor].
Qed.

End Sortedness.




Lemma index_order_incl (rows : list DataEntry) (x : DataEntry) :
  In x (index_order rows) -> In x rows.
Proof.
  unfold index_order. intros Hx.
  apply in_app_or in Hx as [Hx|Hx]; apply filter_In in Hx; tauto.
Qed.


Lemma index_order_permutation (rows : list DataEntry) :
  Permutation (index_order rows) rows.
Proof.
  unfold index_order. induction rows as [|a rows IH]; [constructor|].
  cbn [filter]. destruct (is_verified a); cbn [negb].
  - apply Permutation_sym, Permutation_cons_app, Permutation_sym. exact IH.
  - cbn [app]. constructor. exact IH.
Qed.

Lemma where_rows_permutation path ct verified (db : Session) :
  Permutation (Main.where_rows path ct verified db)
              (filter (Main.matches ct verified) db).
Proof.
  unfold Main.where_rows.
  destruct path; [reflexivity|].
  destruct ct as [[|c ct]|]; try reflexivity.
  apply index_order_permutation.
Qed.

(** A query whose parameters the driver binds is run. *)
Lemma select_entries_run path skip limit ct verified (db : Session) :
  Shape.query_binds skip limit ct = true ->
  Main.select_entries path skip limit ct verified db
  = (Ok (offset_limit skip limit (Main.where_rows path ct verified db)),
     db).
Proof.
  unfold Shape.query_binds, Main.select_entries, Main.bind_query.
  rewrite <- andb_assoc, andb_true_iff. intros [-> ->]. reflexivity.
Qed.

(** Identifiers ascend along the empty table, and every call keeps them
    ascending. *)
Lemma create_keeps_ascending_ids now content ct src md v cs (db : Session) :
  Run.ascending_ids db ->
  Run.ascending_ids
    (snd (Services.create_data_entry now content ct src md v cs db)).
Proof.
  intros Hs.
  destruct (create_cases now content ct src md v cs db)
    as [(e & _ & ->) | [(Hf & _ & ->) | (_ & _ & x & ->)]];
    cbn [snd]; try exact Hs.
  apply sorted_snoc; [exact Hs|].
  intros x Hx. cbn [id Run.fresh_entry]. apply next_id_above. exact Hx.
Qed.

(** Both hold of every table the service can build. *)
Lemma reachable_invariants (db : Session) :
  Run.reachable db -> Run.unique_hashes db /\ Run.ascending_ids db.
Proof.
  induction 1 as [|now content ct src md v cs db Hr [IHu IHa]].
  - split; constructor.
  - split;
      [apply create_keeps_unique_hashes | apply create_keeps_ascending_ids];
      assumption.
Qed.


End Properties.

(* ================================================================== *)
(** * The model at work

    The scenarios of the specification and instances of the theorems above,
    evaluated in [Sample.env]. *)

Section Scenarios.
Import Database.
Context {E : PyEnv}.

(** [{"a":1}] is stored pretty-printed with two spaces of indentation. *)
Example structured_text_is_pretty_printed :
  Services.prepare_content Sample.compact_json = Sample.pretty_json_text.
Proof. vm_compute. reflexivity. Qed.

(** A payload that is already pretty-printed is stored as it is. *)
Example pretty_text_is_a_fixed_point :
  Services.prepare_content Sample.pretty_json = Sample.pretty_json_text.
Proof. vm_compute. reflexivity. Qed.

(** Text that is not JSON is stored as decoded. *)
Example plain_text_is_kept :
  Services.prepare_content Sample.hello = lit "hello world".
Proof. vm_compute. reflexivity. Qed.

(** The bytes 00 01 FF are not UTF-8: they are stored as base64. *)
Example binary_is_base64 :
  Services.prepare_content Sample.binary = lit "AAH/".
Proof. vm_compute. reflexivity. Qed.

(** A JSON string holding U+00E9, given escaped or not, is written with
    the character itself. *)
Example non_ascii_is_not_escaped :
  Services.prepare_content (octets [34; 0xC3; 0xA9; 34]%N) = [34; 233; 34]%N
  /\ Services.prepare_content (octets (QUOTE :: BACKSLASH :: lit "u00e9"
                                        ++ [QUOTE]))
     = [34; 233; 34]%N.
Proof. split; vm_compute; reflexivity. Qed.

(** The escape of a lone surrogate is written as the surrogate itself: a
    text that has no UTF-8 encoding. *)
Example lone_surrogate_is_not_escaped :
  Services.content_str Sample.lone_surrogate = Ok [34; 0xD83D; 34]%N
  /\ encodable [34; 0xD83D; 34]%N = false.
Proof. split; vm_compute; reflexivity. Qed.

End Scenarios.

Section Instances.
Import Database.
Open Scope Z_scope.
#[local] Existing Instance Sample.env.

(** The two stored entries of [Sample.two_entries]. *)
Example two_entries_stored :
  map (fun e => (id e, content e, content_type e, is_verified e))
      Sample.two_entries
  = [ (1, lit "hello world", Some Sample.text_plain, true);
      (2, lit "AAH/", Some Sample.text_plain, false) ].
Proof. vm_compute. reflexivity. Qed.

(** C1, as stated, fails: a second session stores [hello] after this
    call's check on the empty table and before its insert; the call does
    not return the entry that now exists, it raises. *)
Lemma racing_submission_is_not_recovered :
  exists e,
    Sample.other_writer [] = [e]
    /\ content_hash e = Services.generate_hash Sample.hello
    /\ Services.create_data_entry_among Sample.other_writer (2, 2)
         Sample.hello None None None true 100 []
       = (Raise IntegrityError, [e])
    /\ fst (Services.create_data_entry_among Sample.other_writer (2, 2)
              Sample.hello None None None true 100 [])
       <> Ok e.
Proof.
  eexists. split; [vm_compute; reflexivity|].
  split; [vm_compute; reflexivity|].
  split; [vm_compute; reflexivity|].
  vm_compute. discriminate.
Qed.

Lemma insert_conflict_is_raised_witness :
  find (has_hash (Services.generate_hash Sample.hello)) [] = None
  /\ Run.storable Sample.hello None None = true
  /\ (exists e, In e (Sample.other_writer [])
                /\ content_hash e = Services.generate_hash Sample.hello)
  /\ Services.create_data_entry_among Sample.other_writer (2, 2)
       Sample.hello None None None true 100 []
     = (Raise IntegrityError, Sample.other_writer []).
Proof.
  assert (Hs : Run.storable Sample.hello None None = true) by reflexivity.
  split; [reflexivity|]. split; [exact Hs|].
  split.
  - eexists. split; [left; reflexivity | vm_compute; reflexivity].
  - eapply (insert_conflict_is_raised Sample.other_writer (2, 2)
              Sample.hello None None None true 100 []);
      [reflexivity | exact Hs | left; reflexivity
      | vm_compute; reflexivity].
Defined.




Lemma validate_data_ignores_hints_witness :
  exists e,
    fst (Services.create_data_entry (1, 1) Sample.hello None None None true
           100 []) = Ok e
    /\ Services.validate_data Sample.hello (Some (lit "image/png"))
         (Some (lit "elsewhere")) None [e]
       = (Ok (true, Some e, Services.generate_hash Sample.hello), [e])
    /\ Services.create_data_entry (2, 3) Sample.hello
         (Some (lit "image/png")) (Some (lit "elsewhere")) None false 0 [e]
       = (Ok e, [e]).
Proof.
  exists (Run.fresh_entry 1 (1, 1) Sample.hello None None true 100).
  split; [reflexivity|].
  assert (Ha : fst (Services.create_data_entry (1, 1) Sample.hello None
                      None None true 100 [])
               = Ok (Run.fresh_entry 1 (1, 1) Sample.hello None None true
                       100))
    by reflexivity.
  exact (proj2 (validate_data_ignores_hints Sample.hello None None None
                  (Some (lit "image/png")) (Some (lit "elsewhere")) None
                  (1, 1) true 100 (2, 3) false 0 []) _ Ha).
Defined.

Lemma content_hash_is_digest_of_raw_bytes_witness :
  exists e1 e2,
    fst (Services.create_data_entry (1, 1) Sample.compact_json None None
           None true 100 []) = Ok e1
    /\ fst (Services.create_data_entry (5, 5) Sample.compact_json
              (Some (lit "image/png")) None None false 0
              Sample.two_entries) = Ok e2
    /\ content e1 <> map Byte.to_N Sample.compact_json
    /\ content_hash e1 = Services.generate_hash Sample.compact_json
    /\ content_hash e2 = content_hash e1.
Proof.
  exists (Run.fresh_entry 1 (1, 1) Sample.compact_json None None true 100).
  exists (Run.fresh_entry 3 (5, 5) Sample.compact_json
            (Some (lit "image/png")) None false 0).
  assert (Ha : fst (Services.create_data_entry (1, 1) Sample.compact_json
                      None None None true 100 [])
               = Ok (Run.fresh_entry 1 (1, 1) Sample.compact_json None None
                       true 100))
    by reflexivity.
  assert (Hb : fst (Services.create_data_entry (5, 5) Sample.compact_json
                      (Some (lit "image/png")) None None false 0
                      Sample.two_entries)
               = Ok (Run.fresh_entry 3 (5, 5) Sample.compact_json
                       (Some (lit "image/png")) None false 0))
    by reflexivity.
  split; [exact Ha|]. split; [exact Hb|].
  split; [vm_compute; discriminate|].
  destruct (content_hash_is_digest_of_raw_bytes Sample.compact_json
              (1, 1) None None None true 100 []
              (5, 5) (Some (lit "image/png")) None None false 0
              Sample.two_entries _ _ Ha Hb) as (H1 & H2 & _).
  split; [exact H1 | exact H2].
Defined.

Lemma long_integer_is_not_normalized_witness :
  int_max_str_digits = 4300%N
  /\ find (has_hash (Services.generate_hash Sample.long_integer)) [] = None
  /\ Services.create_data_entry (1, 1) Sample.long_integer None None None
       true 100 []
     = (Raise ValueError, []).
Proof.
  split; [reflexivity|]. split; [reflexivity|].
  exact (proj1 (proj2 (proj2 (proj2
           (long_integer_is_not_normalized (1, 1) None None None true 100 []
              eq_refl eq_refl))))).
Defined.

Lemma confidence_score_is_clamped_witness :
  find (has_hash (Services.generate_hash Sample.hello)) [] = None
  /\ Run.storable Sample.hello None None = true
  /\ (exists e,
        Services.create_data_entry (1, 1) Sample.hello None None None true
          (-5) []
        = (Ok e, [e])
        /\ confidence_score e = 0)
  /\ (exists e,
        Services.create_data_entry (1, 1) Sample.hello None None None true
          500 []
        = (Ok e, [e])
        /\ confidence_score e = 100).
Proof.
  assert (Hs : Run.storable Sample.hello None None = true) by reflexivity.
  split; [reflexivity|]. split; [exact Hs|]. split.
  - destruct (confidence_score_is_clamped (1, 1) Sample.hello None None None
                true (-5) [] eq_refl Hs)
      as (e & Hrun & _ & _ & Hlow & _).
    exists e. split; [exact Hrun | apply Hlow; reflexivity].
  - destruct (confidence_score_is_clamped (1, 1) Sample.hello None None None
                true 500 [] eq_refl Hs)
      as (e & Hrun & _ & _ & _ & Hhigh & _).
    exists e. split; [exact Hrun | apply Hhigh; reflexivity].
Defined.

Lemma same_content_distinct_entries_witness :
  Services.generate_hash Sample.compact_json
  <> Services.generate_hash Sample.pretty_json
  /\ Run.hints_bindable Sample.compact_json None None = true
  /\ Run.hints_bindable Sample.pretty_json None None = true
  /\ exists e1 e2,
      snd (Services.create_data_entry (2, 2) Sample.pretty_json None None
             None true 100
             (snd (Services.create_data_entry (1, 1) Sample.compact_json
                     None None None true 100 [])))
      = [e1; e2]
      /\ content e1 = content e2
      /\ id e1 <> id e2.
Proof.
  assert (Hne : Services.generate_hash Sample.compact_json
                <> Services.generate_hash Sample.pretty_json)
    by (vm_compute; discriminate).
  assert (Hb1 : Run.hints_bindable Sample.compact_json None None = true)
    by reflexivity.
  assert (Hb2 : Run.hints_bindable Sample.pretty_json None None = true)
    by reflexivity.
  split; [exact Hne|]. split; [exact Hb1|]. split; [exact Hb2|].
  destruct (same_content_distinct_entries (1, 1) None None None true 100
              (2, 2) None None None true 100 [] Hne eq_refl eq_refl
              Hb1 Hb2)
    as (_ & e1 & e2 & R1 & R2 & C1 & C2 & _ & Hid).
  exists e1, e2. rewrite R1. cbn [snd]. rewrite R2. cbn [snd].
  split; [reflexivity|]. split; [congruence | exact Hid].
Defined.


Lemma duplicate_submission_keeps_stored_entry_witness :
  Run.unique_hashes Sample.two_entries
  /\ exists e,
      In e Sample.two_entries
      /\ content_hash e = Services.generate_hash Sample.hello
      /\ Services.create_data_entry (9, 9) Sample.hello
           (Some (lit "image/png")) (Some (lit "elsewhere")) None false 0
           Sample.two_entries
         = (Ok e, Sample.two_entries)
      /\ (content_type e, source e, is_verified e, confidence_score e)
         = (Some Sample.text_plain, None, true, 100).
Proof.
  assert (Hu : Run.unique_hashes Sample.two_entries).
  { unfold Sample.two_entries.
    do 2 apply create_keeps_unique_hashes. constructor. }
  split; [exact Hu|].
  eexists. split; [left; reflexivity|].
  split; [vm_compute; reflexivity|].
  split; [|vm_compute; reflexivity].
  apply (duplicate_submission_keeps_stored_entry (9, 9) Sample.hello
           (Some (lit "image/png")) (Some (lit "elsewhere")) None false 0
           Sample.two_entries _ Hu);
    [left; reflexivity | vm_compute; reflexivity].
Defined.

(** The handlers render an entry with [to_dict], which [DataEntry] does
    not have: a submission is stored and answered with status 400, and a
    listing that selects a row raises. *)
Example handlers_fail_to_render :
  (exists e,
     Main.submit_data (1, 1) Sample.hello None None None true 100 []
     = (Raise (HTTPException 400), [e])
     /\ content e = lit "hello world")
  /\ fst (Main.list_entries TableScan 0 100 None None Sample.two_entries)
     = Raise AttributeError
  /\ fst (Main.list_entries TableScan 0 100 None None []) = Ok [].
Proof.
  split; [eexists; split; vm_compute; reflexivity|].
  split; vm_compute; reflexivity.
Qed.

End Instances.

(* ================================================================== *)
(** * Further properties of the service *)

Section ServiceProperties.
Import Database.
Context {E : PyEnv}.
Open Scope Z_scope.

Lemma find_snoc_other {A} (p : A -> bool) (l : list A) (a : A) :
  p a = false -> find p (l ++ [a]) = find p l.
Proof.
  intros Hp. induction l as [|b l IH]; cbn [app find].
  - rewrite Hp. reflexivity.
  - destruct (p b); [reflexivity | exact IH].
Qed.

Lemma existsb_absent_hash (h : str) (db : Session) :
  existsb (has_hash h) db = false -> ~ In h (map content_hash db).
Proof.
  intros Hex Hin. apply in_map_iff in Hin as (x & Hx & Hin).
  assert (Ht : existsb (has_hash h) db = true).
  { apply existsb_exists. exists x. split; [exact Hin|].
    apply str_eqb_eq. exact Hx. }
  congruence.
Qed.

Lemma unique_hashes_snoc (db : Session) (e : DataEntry) :
  Run.unique_hashes db -> ~ In (content_hash e) (map content_hash db) ->
  Run.unique_hashes (db ++ [e]).
Proof.
  unfold Run.unique_hashes. intros Hu Hno. rewrite map_app. cbn [map].
  apply NoDup_app; repeat split; [exact Hu | repeat constructor; tauto|].
  intros h Hin [<-|[]]. exact (Hno Hin).
Qed.

Lemma ascending_ids_distinct (rows : list DataEntry) :
  Run.ascending_ids rows -> NoDup (map id rows).
Proof.
  induction 1 as [|a l Hs IH Hall]; cbn [map]; constructor; [|exact IH].
  intros Hin. apply in_map_iff in Hin as (x & Hx & Hin).
  rewrite Forall_forall in Hall. specialize (Hall x Hin). lia.
Qed.

Lemma distinct_id_first (db : Session) (e : DataEntry) :
  NoDup (map id db) -> In e db ->
  find (fun x => id x =? id e) db = Some e.
Proof.
  induction db as [|a db IH]; cbn [map find In]; [tauto|].
  intros Hnd Hin. inversion Hnd as [|? ? Hnotin Hnd']; subst.
  destruct Hin as [->|Hin].
  - rewrite Z.eqb_refl. reflexivity.
  - destruct (id a =? id e) eqn:Ha; [|auto].
    exfalso. apply Hnotin. apply Z.eqb_eq in Ha. rewrite Ha.
    apply in_map. exact Hin.
Qed.

(** X1. Whatever other sessions commit between the check and the insert,
    a call never leaves two rows with one hash: the table it leaves has
    unique hashes when the table it read and the table it wrote to had.
    The call ends in one of five ways: it returns a row it found and
    writes nothing; it appends the row it returns; it raises the refusal
    of the insert ([IntegrityError]) and writes nothing; it raises what
    stopped the preparation of the content ([RecursionError],
    [ValueError]) before it comes to the insert; or it raises
    [UnicodeEncodeError] for a text the driver does not bind and writes
    nothing. *)
Theorem racing_call_keeps_hashes_unique others now content ct src md v cs
  (db : Session) :
  Run.unique_hashes db ->
  Run.unique_hashes (others db) ->
  Run.unique_hashes
    (snd (Services.create_data_entry_among others now content ct src md v cs
            db))
  /\ ((exists e,
         Services.create_data_entry_among others now content ct src md v cs db
         = (Ok e, db)
         /\ In e db)
      \/ (exists e,
            Services.create_data_entry_among others now content ct src md v
              cs db
            = (Ok e, others db ++ [e]))
      \/ Services.create_data_entry_among others now content ct src md v cs
           db
         = (Raise IntegrityError, others db)
      \/ (exists x,
            (x = RecursionError \/ x = ValueError)
            /\ Services.create_data_entry_among others now content ct src md
                 v cs db
               = (Raise x, db))
      \/ Services.create_data_entry_among others now content ct src md v cs
           db
         = (Raise UnicodeEncodeError, others db)).
Proof.
  intros Hu Ho.
  destruct (find (has_hash (Services.generate_hash content)) db)
    as [e|] eqn:Hf.
  - rewrite (create_among_found _ _ _ _ _ _ _ _ _ _ Hf). cbn [snd].
    split; [exact Hu|]. left. exists e.
    split; [reflexivity | apply (first_by_hash_sound _ _ _ Hf)].
  - rewrite (create_among_fresh _ _ _ _ _ _ _ _ _ Hf).
    destruct (Services.content_str content) as [s|x] eqn:Hc.
    + unfold add_commit_refresh. cbn [new_content_hash].
      destruct (bindable _); cbn [negb snd].
      * destruct (existsb _ (others db)) eqn:Hex; cbn [snd].
        -- split; [exact Ho|]. right. right. left. reflexivity.
        -- split; [|right; left; eexists; reflexivity].
           apply unique_hashes_snoc; [exact Ho|].
           apply existsb_absent_hash. exact Hex.
      * split; [exact Ho|]. right. right. right. right. reflexivity.
    + cbn [snd]. split; [exact Hu|]. right. right. right. left.
      exists x. split; [exact (content_str_raises _ _ Hc) | reflexivity].
Qed.

(** X2. A call never removes or alters a stored row.  It returns a row of
    the table and leaves the table as it is, or it appends the row it
    returns, whose [id] is above every [id] in the table and whose hash
    no stored row has, or it raises and leaves the table as it is. *)
Theorem create_data_entry_only_appends now content ct src md v cs
  (db : Session) :
  (exists e,
     Services.create_data_entry now content ct src md v cs db = (Ok e, db)
     /\ In e db)
  \/ (exists e,
        Services.create_data_entry now content ct src md v cs db
        = (Ok e, db ++ [e])
        /\ forall x, In x db ->
                     id x < id e /\ content_hash x <> content_hash e)
  \/ (exists x,
        Services.create_data_entry now content ct src md v cs db
        = (Raise x, db)
        /\ (x = RecursionError \/ x = ValueError
            \/ x = UnicodeEncodeError)).
Proof.
  destruct (find (has_hash (Services.generate_hash content)) db)
    as [e|] eqn:Hf.
  - left. exists e.
    split; [apply create_found; exact Hf
           | apply (first_by_hash_sound _ _ _ Hf)].
  - right. destruct (Run.storable content ct src) eqn:Hs.
    + left. eexists. split; [apply create_fresh; assumption|].
      intros x Hx. cbn [id content_hash Run.fresh_entry].
      split; [apply next_id_above; exact Hx|].
      exact (first_by_hash_none _ _ Hf x Hx).
    + right. exact (create_refused now content ct src md v cs db Hf Hs).
Qed.

(** X3. Every row of a table built by calls of [create_data_entry] from
    the empty table has a [confidence_score] between 0 and 100, a
    [content_type] that is not null, and the hash and the prepared content
    of one same payload. *)
Theorem reachable_rows_are_well_formed (db : Session) (e : DataEntry) :
  Run.reachable db -> In e db -> Shape.well_formed_row e.
Proof.
  intros Hr. revert e.
  induction Hr as [|now content ct src md v cs db Hr IH]; intros e Hin.
  - destruct Hin.
  - destruct (create_cases now content ct src md v cs db)
      as [(e0 & _ & Heq) | [(_ & _ & Heq) | (_ & _ & x & Heq)]];
      rewrite Heq in Hin; cbn [snd] in Hin; try (apply IH; exact Hin).
    apply in_app_or in Hin as [Hin|[<-|[]]]; [apply IH; exact Hin|].
    unfold Shape.well_formed_row.
    cbn [confidence_score content_type content_hash Database.content
         Run.fresh_entry].
    split; [lia|]. split; [discriminate|].
    exists content. split; reflexivity.
Qed.

(** X4. In every table built by calls of [create_data_entry] from the
    empty table no two rows share an [id] and no two rows share a
    [content_hash]. *)
Theorem reachable_tables_have_distinct_keys (db : Session) :
  Run.reachable db ->
  NoDup (map id db) /\ NoDup (map content_hash db).
Proof.
  intros Hr.
  assert (Hinv : Run.ascending_ids db /\ Run.unique_hashes db).
  { induction Hr as [|now content ct src md v cs db Hr [IHa IHu]].
    - split; constructor.
    - split;
        [apply create_keeps_ascending_ids | apply create_keeps_unique_hashes];
        assumption. }
  destruct Hinv as [Ha Hu].
  split; [apply ascending_ids_distinct; exact Ha | exact Hu].
Qed.

(** X5. What a call returns can be read back by its [id]: on a table
    whose identifiers ascend, when the call returns an entry (whose [id]
    fits 64 bits, as every [id] of the storage does), the query by that
    [id] on the table the call leaves yields that entry. *)
Theorem returned_entry_is_found_by_id now content ct src md v cs
  (db : Session) (e : DataEntry) :
  Run.ascending_ids db ->
  fst (Services.create_data_entry now content ct src md v cs db) = Ok e ->
  int64 (id e) = true ->
  first_by_id (id e)
    (snd (Services.create_data_entry now content ct src md v cs db))
  = (Ok (Some e),
     snd (Services.create_data_entry now content ct src md v cs db)).
Proof.
  intros Ha Hret Hid.
  pose proof (create_keeps_ascending_ids now content ct src md v cs db Ha)
    as Ha'.
  destruct (create_returned now content ct src md v cs db e Hret)
    as [_ Hfind].
  unfold first_by_id. rewrite Hid. f_equal. f_equal.
  apply distinct_id_first; [apply ascending_ids_distinct; exact Ha'|].
  apply (first_by_hash_sound _ _ _ Hfind).
Qed.

(** X6. Storing one payload does not change the answer of the duplicate
    check for a payload with another hash. *)
Theorem other_payloads_are_not_affected now content ct src md v cs
  content' ct' src' md' (db : Session) :
  Services.generate_hash content <> Services.generate_hash content' ->
  fst (Services.validate_data content' ct' src' md'
         (snd (Services.create_data_entry now content ct src md v cs db)))
  = fst (Services.validate_data content' ct' src' md' db).
Proof.
  intros Hne. rewrite !validate_data_run. cbn [fst].
  destruct (create_cases now content ct src md v cs db)
    as [(e & _ & ->) | [(_ & _ & ->) | (_ & _ & x & ->)]];
    cbn [snd]; try reflexivity.
  rewrite find_snoc_other; [reflexivity|].
  apply str_eqb_neq. exact Hne.
Qed.

End ServiceProperties.

(* ================================================================== *)
(** * Properties of the handlers *)

Section HandlerProperties.
Import Database.
Context {E : PyEnv}.
Open Scope Z_scope.

Lemma metadata_dict_run (metadata : option str) (db : Session) :
  (Shape.metadata_parses metadata = true
   /\ exists md, Main.metadata_dict metadata db = (Ok md, db))
  \/ (Shape.metadata_parses metadata = false
      /\ exists x, Main.metadata_dict metadata db = (Raise x, db)).
Proof.
  unfold Shape.metadata_parses, Main.metadata_dict.
  destruct metadata as [[|c text]|].
  - left. split; [reflexivity | eexists; reflexivity].
  - destruct (Json.loads_call _ (c :: text)) as [doc|x].
    + left. split; [reflexivity | eexists; reflexivity].
    + right. split; [reflexivity | eexists; reflexivity].
  - left. split; [reflexivity | eexists; reflexivity].
Qed.

Lemma check_data_run file source metadata (db : Session) :
  Main.check_data file source metadata db
  = (if Shape.metadata_parses metadata
     then match find (has_hash (Services.generate_hash file)) db with
          | Some _ => Raise (HTTPException 400)
          | None =>
            Ok {| Main.is_duplicate := false;
                  Main.response_content_hash := Services.generate_hash file;
                  Main.existing_entry := None |}
          end
     else Raise (HTTPException 400), db).
Proof.
  unfold Main.check_data, try_except, bind.
  destruct (metadata_dict_run metadata db)
    as [(-> & md & ->) | (-> & x & ->)]; [|reflexivity].
  rewrite validate_data_run.
  destruct (find (has_hash (Services.generate_hash file)) db); reflexivity.
Qed.

(** X7. [check_data] never writes.  It answers with a body only to say
    that the payload is new: when the metadata is usable and no stored
    row has the hash of the payload.  When a stored row has it, or
    [json.loads] raises on the metadata (it is not JSON, or a limit of the
    interpreter is met), the answer is the error 400. *)
Theorem check_data_answers_only_for_new_payloads file source metadata
  (db : Session) :
  snd (Main.check_data file source metadata db) = db
  /\ (fst (Main.check_data file source metadata db)
      = Ok {| Main.is_duplicate := false;
              Main.response_content_hash := Services.generate_hash file;
              Main.existing_entry := None |}
      <-> Shape.metadata_parses metadata = true
          /\ forall e, In e db ->
                       content_hash e <> Services.generate_hash file)
  /\ (fst (Main.check_data file source metadata db)
      = Raise (HTTPException 400)
      <-> Shape.metadata_parses metadata = false
          \/ exists e, In e db
                       /\ content_hash e = Services.generate_hash file).
Proof.
  rewrite check_data_run. cbn [fst snd]. split; [reflexivity|].
  destruct (Shape.metadata_parses metadata).
  - destruct (find (has_hash (Services.generate_hash file)) db)
      as [e|] eqn:Hf.
    + destruct (first_by_hash_sound _ _ _ Hf) as [Hin Hh].
      split; split.
      * discriminate.
      * intros [_ Hno]. destruct (Hno e Hin Hh).
      * intros _. right. exists e. auto.
      * reflexivity.
    + pose proof (first_by_hash_none _ _ Hf) as Hno.
      split; split.
      * intros _. split; [reflexivity | exact Hno].
      * reflexivity.
      * discriminate.
      * intros [Hm | (e & Hin & Hh)]; [discriminate|].
        destruct (Hno e Hin Hh).
  - split; split.
    + discriminate.
    + intros [Hm _]. discriminate.
    + intros _. left. reflexivity.
    + reflexivity.
Qed.

Lemma create_ignores_metadata now content ct src md md' v cs
  (db : Session) :
  Services.create_data_entry now content ct src md v cs db
  = Services.create_data_entry now content ct src md' v cs db.
Proof.
  unfold Services.create_data_entry.
  destruct (find (has_hash (Services.generate_hash content)) db)
    as [e|] eqn:Hf.
  - rewrite !(create_among_found _ _ _ _ _ _ _ _ _ _ Hf). reflexivity.
  - rewrite !(create_among_fresh _ _ _ _ _ _ _ _ _ Hf). reflexivity.
Qed.

(** X8. [submit_data] never answers with the stored entry: its answer is
    always the error 400.  What it stores depends on its metadata only
    through whether it is usable: with usable metadata it leaves the
    table that [create_data_entry] leaves for the same payload and flags,
    with metadata on which [json.loads] raises it leaves the table as it
    was. *)
Theorem submit_data_stores_then_answers_400 now file ct src metadata md
  v cs (db : Session) :
  Main.submit_data now file ct src metadata v cs db
  = (Raise (HTTPException 400),
     if Shape.metadata_parses metadata
     then snd (Services.create_data_entry now file ct src md v cs db)
     else db).
Proof.
  unfold Main.submit_data, try_except, bind.
  destruct (metadata_dict_run metadata db)
    as [(-> & md0 & ->) | (-> & x & ->)]; [|reflexivity].
  rewrite (create_ignores_metadata now file ct src (Some md0) md v cs db).
  destruct (create_cases now file ct src md v cs db)
    as [(e & _ & ->) | [(_ & _ & ->) | (_ & _ & x & ->)]]; reflexivity.
Qed.

Lemma render_rows (rows : list DataEntry) (db : Session) :
  mapM Main.to_dict rows db
  = (match rows with [] => Ok [] | _ :: _ => Raise AttributeError end, db).
Proof. destruct rows; reflexivity. Qed.

(** X9. [list_entries] never writes and never answers with an entry.
    With parameters that the driver binds it answers only when the query
    selects nothing, with the empty list, and raises [AttributeError] as
    soon as a row is selected; with a parameter that the driver does not
    bind it raises [UnicodeEncodeError] or [OverflowError]. *)
Theorem list_entries_answers_only_when_empty path skip limit ct verified
  (db : Session) :
  snd (Main.list_entries path skip limit ct verified db) = db
  /\ (Shape.query_binds skip limit ct = true ->
      exists rows,
        Main.select_entries path skip limit ct verified db = (Ok rows, db)
        /\ (rows = [] ->
            fst (Main.list_entries path skip limit ct verified db) = Ok [])
        /\ (rows <> [] ->
            fst (Main.list_entries path skip limit ct verified db)
            = Raise AttributeError))
  /\ (Shape.query_binds skip limit ct = false ->
      fst (Main.list_entries path skip limit ct verified db)
      = Raise UnicodeEncodeError
      \/ fst (Main.list_entries path skip limit ct verified db)
         = Raise OverflowError).
Proof.
  unfold Main.list_entries, bind.
  split; [|split].
  - unfold Main.select_entries.
    destruct (Main.bind_query skip limit ct); [reflexivity|].
    rewrite render_rows. reflexivity.
  - intros Hq. rewrite (select_entries_run _ _ _ _ _ _ Hq).
    eexists. split; [reflexivity|]. rewrite render_rows. cbn [fst].
    split.
    + intros ->. reflexivity.
    + intros Hne.
      destruct (offset_limit skip limit _); [congruence | reflexivity].
  - unfold Shape.query_binds, Main.select_entries, Main.bind_query.
    destruct (encodable_opt ct); cbn [negb andb]; [|auto].
    intros ->. cbn [negb fst]. auto.
Qed.

(** X10. [get_entry] never writes and never answers with an entry: for an
    [id] of 64 bits that no row has it raises the error 404, for the [id]
    of a stored row it raises [AttributeError], and for an integer beyond
    64 bits it raises [OverflowError]. *)
Theorem get_entry_never_answers entry_id (db : Session) :
  snd (Main.get_entry entry_id db) = db
  /\ (fst (Main.get_entry entry_id db) = Raise (HTTPException 404)
      <-> int64 entry_id = true
          /\ forall e, In e db -> id e <> entry_id)
  /\ (fst (Main.get_entry entry_id db) = Raise AttributeError
      <-> int64 entry_id = true
          /\ exists e, In e db /\ id e = entry_id)
  /\ (fst (Main.get_entry entry_id db) = Raise OverflowError
      <-> int64 entry_id = false).
Proof.
  unfold Main.get_entry, bind, first_by_id.
  destruct (int64 entry_id).
  - destruct (find (fun e => id e =? entry_id) db) as [e|] eqn:Hf;
      cbn [fst snd]; (split; [reflexivity|]).
    + apply find_some in Hf as [Hin Hid]. apply Z.eqb_eq in Hid.
      split; [|split]; split; try discriminate; try reflexivity.
      * intros [_ Hno]. destruct (Hno e Hin Hid).
      * intros _. split; [reflexivity|]. exists e. auto.
    + assert (Hno : forall e, In e db -> id e <> entry_id).
      { intros e Hin Hid.
        pose proof (find_none _ _ Hf e Hin) as Hne. cbn beta in Hne.
        apply Z.eqb_neq in Hne. contradiction. }
      split; [|split]; split; try discriminate; try reflexivity.
      * intros _. split; [reflexivity | exact Hno].
      * intros [_ (e & Hin & Hid)]. destruct (Hno e Hin Hid).
  - cbn [fst snd]. split; [reflexivity|].
    split; [|split]; split; try discriminate; try reflexivity.
    + intros [Hd _]. discriminate.
    + intros [Hd _]. discriminate.
Qed.

End HandlerProperties.

(* ================================================================== *)
(** * Properties of the listing query *)

Section ListingProperties.
Import Database.
Context {E : PyEnv}.

Lemma firstn_plus {A} (a b : nat) (l : list A) :
  firstn (a + b) l = firstn a l ++ firstn b (skipn a l).
Proof.
  revert l. induction a as [|a IH]; intros l; [reflexivity|].
  destruct l as [|x l]; cbn [Nat.add firstn skipn app].
  - rewrite firstn_nil. reflexivity.
  - rewrite IH. reflexivity.
Qed.

Lemma offset_limit_pages {A} (skip l1 l2 : Z) (rows : list A) :
  (0 <= skip)%Z -> (0 <= l1)%Z -> (0 <= l2)%Z ->
  offset_limit skip l1 rows ++ offset_limit (skip + l1) l2 rows
  = offset_limit skip (l1 + l2) rows.
Proof.
  intros Hs H1 H2. unfold offset_limit.
  replace (l1 <? 0)%Z with false by (symmetry; apply Z.ltb_ge; lia).
  replace (l2 <? 0)%Z with false by (symmetry; apply Z.ltb_ge; lia).
  replace (l1 + l2 <? 0)%Z with false by (symmetry; apply Z.ltb_ge; lia).
  rewrite !Z2Nat.inj_add by lia.
  rewrite firstn_plus, skipn_skipn.
  rewrite (Nat.add_comm (Z.to_nat l1) (Z.to_nat skip)). reflexivity.
Qed.

Lemma int64_spec (i : Z) :
  int64 i = true <-> (- 2 ^ 63 <= i < 2 ^ 63)%Z.
Proof.
  unfold int64. rewrite andb_true_iff, Z.leb_le, Z.ltb_lt. reflexivity.
Qed.

Lemma query_binds_spec (skip limit : Z) (ct : option str) :
  Shape.query_binds skip limit ct = true
  <-> encodable_opt ct = true
      /\ (- 2 ^ 63 <= limit < 2 ^ 63)%Z /\ (- 2 ^ 63 <= skip < 2 ^ 63)%Z.
Proof.
  unfold Shape.query_binds.
  rewrite !andb_true_iff, !int64_spec. tauto.
Qed.

(** X11. Pages follow one another without a gap or a repeated row: for an
    offset and two limits that are not negative, and such that the
    parameters of the three queries fit 64 bits, the page at [skip] of
    [l1] rows followed by the page at [skip + l1] of [l2] rows is the page
    at [skip] of [l1 + l2] rows, on any access path. *)
Theorem consecutive_pages_concatenate path skip l1 l2 ct verified
  (db : Session) :
  (0 <= skip)%Z -> (0 <= l1)%Z -> (0 <= l2)%Z ->
  (skip + l1 < 2 ^ 63)%Z -> (l1 + l2 < 2 ^ 63)%Z ->
  encodable_opt ct = true ->
  exists first second,
    Main.select_entries path skip l1 ct verified db = (Ok first, db)
    /\ Main.select_entries path (skip + l1) l2 ct verified db
       = (Ok second, db)
    /\ Main.select_entries path skip (l1 + l2) ct verified db
       = (Ok (first ++ second), db).
Proof.
  intros Hs H1 H2 Hb1 Hb2 Hct.
  rewrite !select_entries_run
    by (apply query_binds_spec; split; [exact Hct|];
        change (2 ^ 63)%Z with 9223372036854775808%Z in *; lia).
  do 2 eexists.
  split; [reflexivity|]. split; [reflexivity|].
  rewrite offset_limit_pages by assumption.
  reflexivity.
Qed.

(** X12. The access path changes the order of a listing and nothing else:
    without a bound (no row skipped, a negative limit), with parameters
    that the driver binds, any two access paths yield the same rows, each
    as often, namely the rows of the table that match the filters. *)
Theorem access_path_only_reorders path1 path2 skip limit ct verified
  (db : Session) :
  (skip <= 0)%Z -> (limit < 0)%Z ->
  Shape.query_binds skip limit ct = true ->
  exists rows1 rows2,
    Main.select_entries path1 skip limit ct verified db = (Ok rows1, db)
    /\ Main.select_entries path2 skip limit ct verified db = (Ok rows2, db)
    /\ Permutation rows1 rows2
    /\ Permutation rows1 (filter (Main.matches ct verified) db).
Proof.
  intros Hs Hl Hq. rewrite !(select_entries_run _ _ _ _ _ _ Hq).
  do 2 eexists.
  split; [reflexivity|]. split; [reflexivity|].
  unfold offset_limit.
  replace (limit <? 0)%Z with true by (symmetry; apply Z.ltb_lt; lia).
  replace (Z.to_nat skip) with 0%nat by lia. cbn [skipn].
  split; [|apply where_rows_permutation].
  eapply Permutation_trans; [apply where_rows_permutation|].
  apply Permutation_sym, where_rows_permutation.
Qed.

(** X13. The size of a page: for an offset and a limit that are not
    negative, with parameters that the driver binds, the listing has
    [limit] rows, or as many as match the filters beyond the first [skip]
    when these are fewer; none when [skip] reaches their number. *)
Theorem page_size path skip limit ct verified (db : Session) :
  (0 <= skip)%Z -> (0 <= limit)%Z ->
  Shape.query_binds skip limit ct = true ->
  exists rows,
    Main.select_entries path skip limit ct verified db = (Ok rows, db)
    /\ Z.of_nat (length rows)
       = Z.min limit
           (Z.max 0 (Z.of_nat (Shape.count_matching ct verified db) - skip)).
Proof.
  intros Hs Hl Hq. rewrite (select_entries_run _ _ _ _ _ _ Hq).
  eexists. split; [reflexivity|].
  unfold offset_limit, Shape.count_matching.
  replace (limit <? 0)%Z with false by (symmetry; apply Z.ltb_ge; lia).
  rewrite length_firstn, length_skipn.
  rewrite (Permutation_length (where_rows_permutation path ct verified db)).
  lia.
Qed.

End ListingProperties.

(* ================================================================== *)
(** * The stored forms can be read back *)

Section CodecProperties.
Import Database Inverse.
Context {E : PyEnv}.
Open Scope N_scope.

(** ** Base64 *)

Lemma below_In (k : N) (n : nat) : k < N.of_nat n -> In k (below n).
Proof.
  intros H. unfold below. apply in_map_iff. exists (N.to_nat k).
  split; [apply N2Nat.id|]. apply in_seq. lia.
Qed.

Lemma by_cases2 (P : N -> N -> bool) (n m : nat) :
  forallb (fun a => forallb (P a) (below m)) (below n) = true ->
  forall a b, a < N.of_nat n -> b < N.of_nat m -> P a b = true.
Proof.
  intros H a b Ha Hb.
  rewrite forallb_forall in H. specialize (H a (below_In a n Ha)).
  rewrite forallb_forall in H. exact (H b (below_In b m Hb)).
Qed.

Lemma octet0_chars a b : a < 256 -> b < 256 ->
  octet0 (char0 a) (char1 a b) = a.
Proof.
  intros Ha Hb. apply N.eqb_eq.
  exact (by_cases2 (fun a b => octet0 (char0 a) (char1 a b) =? a) 256 256
           ltac:(vm_compute; reflexivity) a b Ha Hb).
Qed.

Lemma char1_low a b : a < 256 -> b < 256 ->
  sextet_of (char1 a b) mod 16 = b / 16.
Proof.
  intros Ha Hb. apply N.eqb_eq.
  exact (by_cases2 (fun a b => sextet_of (char1 a b) mod 16 =? b / 16)
           256 256 ltac:(vm_compute; reflexivity) a b Ha Hb).
Qed.

Lemma char2_high b c : b < 256 -> c < 256 ->
  sextet_of (char2 b c) / 4 = b mod 16.
Proof.
  intros Hb Hc. apply N.eqb_eq.
  exact (by_cases2 (fun b c => sextet_of (char2 b c) / 4 =? b mod 16)
           256 256 ltac:(vm_compute; reflexivity) b c Hb Hc).
Qed.

Lemma octet2_chars b c : b < 256 -> c < 256 ->
  octet2 (char2 b c) (char3 c) = c.
Proof.
  intros Hb Hc. apply N.eqb_eq.
  exact (by_cases2 (fun b c => octet2 (char2 b c) (char3 c) =? c) 256 256
           ltac:(vm_compute; reflexivity) b c Hb Hc).
Qed.

Lemma octet1_chars a b c : a < 256 -> b < 256 -> c < 256 ->
  octet1 (char1 a b) (char2 b c) = b.
Proof.
  intros Ha Hb Hc. unfold octet1.
  rewrite (char1_low a b Ha Hb), (char2_high b c Hb Hc).
  rewrite N.mul_comm. symmetry. apply N.div_mod. discriminate.
Qed.

Lemma alphabet_not_pad (i : N) : Base64.alphabet i <> Base64.PAD.
Proof.
  unfold Base64.alphabet, Base64.PAD.
  change (ch "A") with 65; change (ch "a") with 97;
    change (ch "0") with 48; change (ch "+") with 43;
    change (ch "/") with 47; change (ch "=") with 61.
  destruct (N.ltb_spec i 26); [lia|].
  destruct (N.ltb_spec i 52); [lia|].
  destruct (N.ltb_spec i 62); [lia|].
  destruct (N.eqb_spec i 62); lia.
Qed.

Lemma encode_three a b c rest :
  Base64.encode_octets (a :: b :: c :: rest)
  = char0 a :: char1 a b :: char2 b c :: char3 c
    :: Base64.encode_octets rest.
Proof. reflexivity. Qed.

Lemma encode_two a b :
  Base64.encode_octets [a; b]
  = [char0 a; char1 a b; char2 b 0; Base64.PAD].
Proof.
  cbn [Base64.encode_octets]. unfold char2.
  change (N.shiftr 0 6) with 0. rewrite N.lor_0_r. reflexivity.
Qed.

Lemma encode_one a :
  Base64.encode_octets [a] = [char0 a; char1 a 0; Base64.PAD; Base64.PAD].
Proof.
  cbn [Base64.encode_octets]. unfold char1.
  change (N.shiftr 0 4) with 0. rewrite N.lor_0_r. reflexivity.
Qed.

Lemma list_ind3 {A} (P : list A -> Prop) :
  P [] -> (forall a, P [a]) -> (forall a b, P [a; b]) ->
  (forall a b c l, P l -> P (a :: b :: c :: l)) ->
  forall l, P l.
Proof.
  intros H0 H1 H2 H3 l.
  enough (H : P l /\ (forall a, P (a :: l)) /\ (forall a b, P (a :: b :: l)))
    by apply H.
  induction l as [|x l (IH0 & IH1 & IH2)].
  - repeat split; auto.
  - repeat split; auto.
Qed.

Ltac pad_clash :=
  exfalso;
  match goal with
  | H : _ = Base64.PAD |- _ => revert H; apply alphabet_not_pad
  | H : Base64.PAD = _ |- _ =>
    symmetry in H; revert H; apply alphabet_not_pad
  end.

Ltac split_octets :=
  repeat match goal with
         | H : Forall octet (_ :: _) |- _ => inversion H; clear H; subst
         end;
  unfold octet in *.

Lemma encode_octets_injective (l1 l2 : list N) :
  Forall octet l1 -> Forall octet l2 ->
  Base64.encode_octets l1 = Base64.encode_octets l2 -> l1 = l2.
Proof.
  revert l2. induction l1 as [|a|a b|a b c l1 IH] using list_ind3;
    intros [|a' [|b' [|c' l2]]] O1 O2;
    rewrite ?encode_three, ?encode_two, ?encode_one; intros Heq;
    try discriminate; try reflexivity;
    injection Heq; intros; try pad_clash; split_octets.
  - f_equal.
    rewrite <- (octet0_chars a 0), <- (octet0_chars a' 0)
      by (assumption || reflexivity).
    congruence.
  - assert (a = a').
    { rewrite <- (octet0_chars a b), <- (octet0_chars a' b') by assumption.
      congruence. }
    assert (b = b').
    { rewrite <- (octet1_chars a b 0), <- (octet1_chars a' b' 0)
        by (assumption || reflexivity).
      congruence. }
    congruence.
  - assert (a = a').
    { rewrite <- (octet0_chars a b), <- (octet0_chars a' b') by assumption.
      congruence. }
    assert (b = b').
    { rewrite <- (octet1_chars a b c), <- (octet1_chars a' b' c')
        by assumption.
      congruence. }
    assert (c = c').
    { rewrite <- (octet2_chars b c), <- (octet2_chars b' c') by assumption.
      congruence. }
    f_equal; [assumption|]. f_equal; [assumption|]. f_equal; [assumption|].
    apply IH; assumption.
Qed.

Lemma to_N_octet (b : byte) : octet (Byte.to_N b).
Proof. unfold octet. pose proof (Byte.to_N_bounded b). lia. Qed.

Lemma to_N_injective (l1 l2 : bytes) :
  map Byte.to_N l1 = map Byte.to_N l2 -> l1 = l2.
Proof.
  revert l2. induction l1 as [|a l1 IH]; intros [|b l2] H;
    try discriminate; [reflexivity|].
  injection H as Hab Hl. f_equal; [|apply IH; exact Hl].
  apply (f_equal Byte.of_N) in Hab. rewrite !Byte.of_to_N in Hab.
  congruence.
Qed.

Lemma b64encode_injective (b1 b2 : bytes) :
  Base64.b64encode b1 = Base64.b64encode b2 -> b1 = b2.
Proof.
  unfold Base64.b64encode. intros H. apply to_N_injective.
  apply encode_octets_injective;
    [apply Forall_map, Forall_forall; intros; apply to_N_octet ..
    | exact H].
Qed.


Lemma alphabet_is_base64_char (i : N) : base64_char (Base64.alphabet i) = true.
Proof.
  unfold Base64.alphabet, base64_char.
  change (ch "A") with 65; change (ch "a") with 97;
    change (ch "0") with 48; change (ch "+") with 43;
    change (ch "/") with 47; change (ch "=") with 61;
    change (ch "Z") with 90; change (ch "z") with 122;
    change (ch "9") with 57.
  destruct (N.ltb_spec i 26);
    [|destruct (N.ltb_spec i 52);
      [|destruct (N.ltb_spec i 62); [|destruct (N.eqb_spec i 62)]]];
  repeat match goal with
         | |- context [?a <=? ?b] => destruct (N.leb_spec a b); try lia
         | |- context [?a =? ?b] => destruct (N.eqb_spec a b); try lia
         end; reflexivity.
Qed.

Lemma encode_octets_shape (l : list N) :
  length (Base64.encode_octets l) = (4 * ((length l + 2) / 3))%nat
  /\ forallb base64_char (Base64.encode_octets l) = true.
Proof.
  induction l as [|a|a b|a b c l [IHl IHc]] using list_ind3.
  - split; reflexivity.
  - split; [reflexivity|]. cbn [Base64.encode_octets forallb].
    rewrite !alphabet_is_base64_char. reflexivity.
  - split; [reflexivity|]. cbn [Base64.encode_octets forallb].
    rewrite !alphabet_is_base64_char. reflexivity.
  - split.
    + cbn [Base64.encode_octets length]. rewrite IHl.
      replace (S (S (S (length l))) + 2)%nat
        with (1 * 3 + (length l + 2))%nat by lia.
      rewrite Nat.div_add_l by discriminate. lia.
    + cbn [Base64.encode_octets forallb].
      rewrite !alphabet_is_base64_char, IHc. reflexivity.
Qed.

(** X14. A payload that is not UTF-8 can be recovered from what is stored
    for it: two such payloads with the same stored content are the same
    payload. *)
Theorem binary_payload_is_determined_by_content (b1 b2 : bytes) :
  Utf8.decode b1 = None ->
  Utf8.decode b2 = None ->
  Services.prepare_content b1 = Services.prepare_content b2 ->
  b1 = b2.
Proof.
  unfold Services.prepare_content. intros -> ->.
  apply b64encode_injective.
Qed.

(** X15. What is stored for a payload of [n] octets that is not UTF-8 is
    text of [4 * ceil(n / 3)] characters, each a letter, a digit, [+],
    [/] or [=]. *)
Theorem binary_content_is_base64_text (b : bytes) :
  Utf8.decode b = None ->
  length (Services.prepare_content b) = (4 * ((length b + 2) / 3))%nat
  /\ forallb base64_char (Services.prepare_content b) = true.
Proof.
  unfold Services.prepare_content. intros ->. unfold Base64.b64encode.
  destruct (encode_octets_shape (map Byte.to_N b)) as [Hl Hc].
  rewrite length_map in Hl. split; assumption.
Qed.

(** ** UTF-8 *)

Lemma in_range_spec lo hi b :
  Utf8.in_range lo hi b = true <-> lo <= b <= hi.
Proof.
  unfold Utf8.in_range. rewrite andb_true_iff, !N.leb_le. tauto.
Qed.

Lemma option_map_cons_inv (c : N) (o : option str) (s : str) :
  option_map (cons c) o = Some s ->
  exists s', o = Some s' /\ s = c :: s'.
Proof.
  destruct o as [s'|]; cbn; [|discriminate].
  intros H. injection H as <-. eauto.
Qed.

(** The low bits of an octet whose high bits are known. *)
Lemma low_bits (b off : N) (k : N) (q : N) :
  off = 2 ^ k * q -> off <= b < off + 2 ^ k ->
  N.land b (N.ones k) = b - off.
Proof.
  intros -> H. rewrite N.land_ones. symmetry.
  apply (N.mod_unique _ _ q); lia.
Qed.

Lemma last_digit (q r : N) :
  r < 64 -> (q * 64 + r) / 64 = q /\ (q * 64 + r) mod 64 = r.
Proof.
  intros H. split; symmetry;
    [apply (N.div_unique _ 64 q r) | apply (N.mod_unique _ 64 q r)]; lia.
Qed.

Lemma continuation b : 0x80 <= b <= 0xBF -> Utf8.low6 b = b - 0x80.
Proof.
  intros H. unfold Utf8.low6. change 0x3F with (N.ones 6).
  apply (low_bits b 0x80 6 2); [reflexivity | cbn; lia].
Qed.

Lemma code_point_1 b0 : b0 < 0x80 -> encode_cp b0 = [b0].
Proof.
  intros H. unfold encode_cp.
  destruct (N.ltb_spec b0 0x80); [reflexivity | lia].
Qed.

Lemma code_point_2 b0 b1 :
  0xC2 <= b0 <= 0xDF -> 0x80 <= b1 <= 0xBF ->
  encode_cp (N.shiftl (N.land b0 0x1F) 6 + Utf8.low6 b1) = [b0; b1].
Proof.
  intros H0 H1. rewrite (continuation b1 H1).
  change 0x1F with (N.ones 5).
  rewrite (low_bits b0 0xC0 5 6) by (reflexivity || (cbn; lia)).
  rewrite N.shiftl_mul_pow2. change (2 ^ 6) with 64.
  destruct (last_digit (b0 - 0xC0) (b1 - 0x80)) as [D M]; [lia|].
  unfold encode_cp.
  destruct (N.ltb_spec ((b0 - 0xC0) * 64 + (b1 - 0x80)) 0x80); [lia|].
  destruct (N.ltb_spec ((b0 - 0xC0) * 64 + (b1 - 0x80)) 0x800); [|lia].
  rewrite D, M. f_equal; [lia|]. f_equal. lia.
Qed.

Lemma code_point_3 b0 b1 b2 :
  0xE0 <= b0 <= 0xEF ->
  (if b0 =? 0xE0 then 0xA0 else 0x80) <= b1
  <= (if b0 =? 0xED then 0x9F else 0xBF) ->
  0x80 <= b2 <= 0xBF ->
  encode_cp (N.shiftl (N.land b0 0x0F) 12 + N.shiftl (Utf8.low6 b1) 6
             + Utf8.low6 b2) = [b0; b1; b2].
Proof.
  intros H0 H1 H2.
  assert (H1' : 0x80 <= b1 <= 0xBF)
    by (destruct (b0 =? 0xE0), (b0 =? 0xED); lia).
  rewrite (continuation b1 H1'), (continuation b2 H2).
  change 0x0F with (N.ones 4).
  rewrite (low_bits b0 0xE0 4 14) by (reflexivity || (cbn; lia)).
  rewrite !N.shiftl_mul_pow2. change (2 ^ 6) with 64.
  change (2 ^ 12) with 4096.
  replace ((b0 - 0xE0) * 4096 + (b1 - 0x80) * 64 + (b2 - 0x80))
    with (((b0 - 0xE0) * 64 + (b1 - 0x80)) * 64 + (b2 - 0x80)) by lia.
  destruct (last_digit ((b0 - 0xE0) * 64 + (b1 - 0x80)) (b2 - 0x80))
    as [D2 M2]; [lia|].
  destruct (last_digit (b0 - 0xE0) (b1 - 0x80)) as [D1 M1]; [lia|].
  unfold encode_cp.
  destruct (N.ltb_spec (((b0 - 0xE0) * 64 + (b1 - 0x80)) * 64 + (b2 - 0x80))
              0x80);
    [destruct (N.eqb_spec b0 0xE0); lia|].
  destruct (N.ltb_spec (((b0 - 0xE0) * 64 + (b1 - 0x80)) * 64 + (b2 - 0x80))
              0x800);
    [destruct (N.eqb_spec b0 0xE0); lia|].
  destruct (N.ltb_spec (((b0 - 0xE0) * 64 + (b1 - 0x80)) * 64 + (b2 - 0x80))
              0x10000); [|lia].
  rewrite D2, M2, D1, M1. f_equal; [lia|]. f_equal; [lia|]. f_equal. lia.
Qed.

Lemma code_point_4 b0 b1 b2 b3 :
  0xF0 <= b0 <= 0xF4 ->
  (if b0 =? 0xF0 then 0x90 else 0x80) <= b1
  <= (if b0 =? 0xF4 then 0x8F else 0xBF) ->
  0x80 <= b2 <= 0xBF -> 0x80 <= b3 <= 0xBF ->
  encode_cp (N.shiftl (N.land b0 0x07) 18 + N.shiftl (Utf8.low6 b1) 12
             + N.shiftl (Utf8.low6 b2) 6 + Utf8.low6 b3)
  = [b0; b1; b2; b3].
Proof.
  intros H0 H1 H2 H3.
  assert (H1' : 0x80 <= b1 <= 0xBF)
    by (destruct (b0 =? 0xF0), (b0 =? 0xF4); lia).
  rewrite (continuation b1 H1'), (continuation b2 H2), (continuation b3 H3).
  change 0x07 with (N.ones 3).
  rewrite (low_bits b0 0xF0 3 30) by (reflexivity || (cbn; lia)).
  rewrite !N.shiftl_mul_pow2. change (2 ^ 6) with 64.
  change (2 ^ 12) with 4096. change (2 ^ 18) with 262144.
  replace ((b0 - 0xF0) * 262144 + (b1 - 0x80) * 4096 + (b2 - 0x80) * 64
           + (b3 - 0x80))
    with ((((b0 - 0xF0) * 64 + (b1 - 0x80)) * 64 + (b2 - 0x80)) * 64
          + (b3 - 0x80)) by lia.
  destruct (last_digit
              (((b0 - 0xF0) * 64 + (b1 - 0x80)) * 64 + (b2 - 0x80))
              (b3 - 0x80)) as [D3 M3]; [lia|].
  destruct (last_digit ((b0 - 0xF0) * 64 + (b1 - 0x80)) (b2 - 0x80))
    as [D2 M2]; [lia|].
  destruct (last_digit (b0 - 0xF0) (b1 - 0x80)) as [D1 M1]; [lia|].
  assert (Hlo : 0x10000
                <= (((b0 - 0xF0) * 64 + (b1 - 0x80)) * 64 + (b2 - 0x80)) * 64
                   + (b3 - 0x80))
    by (destruct (N.eqb_spec b0 0xF0); lia).
  set (c := (((b0 - 0xF0) * 64 + (b1 - 0x80)) * 64 + (b2 - 0x80)) * 64
            + (b3 - 0x80)) in *.
  unfold encode_cp.
  destruct (N.ltb_spec c 0x80); [lia|].
  destruct (N.ltb_spec c 0x800); [lia|].
  destruct (N.ltb_spec c 0x10000); [lia|].
  rewrite D3, M3, D2, M2, D1, M1.
  f_equal; [lia|]. f_equal; [lia|]. f_equal; [lia|]. f_equal. lia.
Qed.

Lemma decode_then_encode (n : nat) :
  forall bs s, (length bs <= n)%nat ->
    Utf8.decode_octets bs = Some s -> encode_text s = bs.
Proof.
  induction n as [|n IH]; intros bs s Hlen Hdec.
  - destruct bs; [|cbn in Hlen; lia]. cbn in Hdec. injection Hdec as <-.
    reflexivity.
  - destruct bs as [|b0 r0];
      [cbn in Hdec; injection Hdec as <-; reflexivity|].
    cbn [Utf8.decode_octets] in Hdec. cbn [length] in Hlen.
    destruct (N.ltb_spec b0 0x80) as [Hb0|Hb0].
    { apply option_map_cons_inv in Hdec as (s' & Hs' & ->).
      cbn [encode_text flat_map]. rewrite (code_point_1 b0 Hb0).
      cbn [app]. f_equal. apply IH; [lia | exact Hs']. }
    destruct (Utf8.in_range 0xC2 0xDF b0) eqn:R2.
    { apply in_range_spec in R2.
      destruct r0 as [|b1 r1]; [discriminate|].
      destruct (Utf8.cont b1) eqn:C1; [|discriminate].
      apply in_range_spec in C1.
      apply option_map_cons_inv in Hdec as (s' & Hs' & ->).
      cbn [encode_text flat_map]. rewrite (code_point_2 b0 b1 R2 C1).
      cbn [app]. do 2 f_equal.
      apply IH; [cbn [length] in Hlen; lia | exact Hs']. }
    destruct (Utf8.in_range 0xE0 0xEF b0) eqn:R3.
    { apply in_range_spec in R3.
      destruct r0 as [|b1 [|b2 r2]]; try discriminate.
      destruct (Utf8.in_range _ _ b1) eqn:C1; [|discriminate].
      destruct (Utf8.cont b2) eqn:C2; [|discriminate].
      apply in_range_spec in C1. apply in_range_spec in C2.
      cbn [andb] in Hdec.
      apply option_map_cons_inv in Hdec as (s' & Hs' & ->).
      cbn [encode_text flat_map]. rewrite (code_point_3 b0 b1 b2 R3 C1 C2).
      cbn [app]. do 3 f_equal.
      apply IH; [cbn [length] in Hlen; lia | exact Hs']. }
    destruct (Utf8.in_range 0xF0 0xF4 b0) eqn:R4; [|discriminate].
    apply in_range_spec in R4.
    destruct r0 as [|b1 [|b2 [|b3 r3]]]; try discriminate.
    destruct (Utf8.in_range _ _ b1) eqn:C1; [|discriminate].
    destruct (Utf8.cont b2) eqn:C2; [|discriminate].
    destruct (Utf8.cont b3) eqn:C3; [|discriminate].
    apply in_range_spec in C1. apply in_range_spec in C2.
    apply in_range_spec in C3. cbn [andb] in Hdec.
    apply option_map_cons_inv in Hdec as (s' & Hs' & ->).
    cbn [encode_text flat_map].
    rewrite (code_point_4 b0 b1 b2 b3 R4 C1 C2 C3).
    cbn [app]. do 4 f_equal.
    apply IH; [cbn [length] in Hlen; lia | exact Hs'].
Qed.


Lemma decode_injective (b1 b2 : bytes) (text : str) :
  Utf8.decode b1 = Some text -> Utf8.decode b2 = Some text -> b1 = b2.
Proof.
  unfold Utf8.decode. intros H1 H2. apply to_N_injective.
  rewrite <- (decode_then_encode _ _ _ (le_n _) H1).
  rewrite <- (decode_then_encode _ _ _ (le_n _) H2). reflexivity.
Qed.

(** X16. A UTF-8 payload that is not JSON can be recovered from what is
    stored for it: the stored text encodes back to the payload, so two
    such payloads with the same stored content are the same payload. *)
Theorem text_payload_is_determined_by_content (b1 b2 : bytes)
  (text1 text2 : str) :
  Utf8.decode b1 = Some text1 -> Json.loads text1 = None ->
  Utf8.decode b2 = Some text2 -> Json.loads text2 = None ->
  Services.prepare_content b1 = Services.prepare_content b2 ->
  encode_text (Services.prepare_content b1) = map Byte.to_N b1
  /\ b1 = b2.
Proof.
  unfold Services.prepare_content. intros D1 L1 D2 L2.
  rewrite D1, L1, D2, L2. intros <-. split.
  - exact (decode_then_encode _ _ _ (le_n _) D1).
  - exact (decode_injective b1 b2 text1 D1 D2).
Qed.

End CodecProperties.

(* ================================================================== *)
(** * Instances of the further properties *)

Section MoreInstances.
Import Database.
Open Scope Z_scope.
#[local] Existing Instance Sample.env.

Lemma two_entries_reachable : Run.reachable Sample.two_entries.
Proof.
  unfold Sample.two_entries. do 2 apply Run.reachable_create.
  apply Run.reachable_empty.
Defined.

Lemma racing_call_keeps_hashes_unique_witness :
  Run.unique_hashes []
  /\ Run.unique_hashes (Sample.other_writer [])
  /\ Run.unique_hashes
       (snd (Services.create_data_entry_among Sample.other_writer (2, 2)
               Sample.hello None None None true 100 [])).
Proof.
  assert (H0 : Run.unique_hashes []) by constructor.
  assert (H1 : Run.unique_hashes (Sample.other_writer [])).
  { unfold Sample.other_writer. apply create_keeps_unique_hashes.
    exact H0. }
  split; [exact H0|]. split; [exact H1|].
  exact (proj1 (racing_call_keeps_hashes_unique Sample.other_writer (2, 2)
                  Sample.hello None None None true 100 [] H0 H1)).
Defined.

Lemma reachable_rows_are_well_formed_witness :
  Run.reachable Sample.two_entries
  /\ exists e, In e Sample.two_entries /\ Shape.well_formed_row e.
Proof.
  split; [exact two_entries_reachable|].
  exists (Run.fresh_entry 1 (1, 1) Sample.hello None None true 100).
  assert (Hin : In (Run.fresh_entry 1 (1, 1) Sample.hello None None true
                      100)
                   Sample.two_entries) by (left; reflexivity).
  split; [exact Hin|].
  exact (reachable_rows_are_well_formed Sample.two_entries _
           two_entries_reachable Hin).
Defined.

Lemma reachable_tables_have_distinct_keys_witness :
  Run.reachable Sample.two_entries
  /\ NoDup (map id Sample.two_entries)
  /\ NoDup (map content_hash Sample.two_entries).
Proof.
  split; [exact two_entries_reachable|].
  exact (reachable_tables_have_distinct_keys Sample.two_entries
           two_entries_reachable).
Defined.

Lemma returned_entry_is_found_by_id_witness :
  Run.ascending_ids Sample.two_entries
  /\ exists e,
      fst (Services.create_data_entry (3, 3) Sample.compact_json None None
             None true 100 Sample.two_entries) = Ok e
      /\ int64 (id e) = true
      /\ first_by_id (id e)
           (snd (Services.create_data_entry (3, 3) Sample.compact_json None
                   None None true 100 Sample.two_entries))
         = (Ok (Some e),
            snd (Services.create_data_entry (3, 3) Sample.compact_json None
                   None None true 100 Sample.two_entries)).
Proof.
  assert (Ha : Run.ascending_ids Sample.two_entries).
  { unfold Sample.two_entries.
    do 2 apply create_keeps_ascending_ids. constructor. }
  split; [exact Ha|].
  exists (Run.fresh_entry 3 (3, 3) Sample.compact_json None None true 100).
  assert (Hret : fst (Services.create_data_entry (3, 3) Sample.compact_json
                        None None None true 100 Sample.two_entries)
                 = Ok (Run.fresh_entry 3 (3, 3) Sample.compact_json None
                         None true 100))
    by reflexivity.
  assert (Hid : int64 (id (Run.fresh_entry 3 (3, 3) Sample.compact_json
                             None None true 100)) = true)
    by reflexivity.
  split; [exact Hret|]. split; [exact Hid|].
  exact (returned_entry_is_found_by_id (3, 3) Sample.compact_json None None
           None true 100 Sample.two_entries _ Ha Hret Hid).
Defined.

Lemma other_payloads_are_not_affected_witness :
  Services.generate_hash Sample.hello
  <> Services.generate_hash Sample.binary
  /\ fst (Services.validate_data Sample.binary None None None
            (snd (Services.create_data_entry (1, 1) Sample.hello None None
                    None true 100 [])))
     = fst (Services.validate_data Sample.binary None None None []).
Proof.
  assert (Hne : Services.generate_hash Sample.hello
                <> Services.generate_hash Sample.binary)
    by (vm_compute; discriminate).
  split; [exact Hne|].
  exact (other_payloads_are_not_affected (1, 1) Sample.hello None None None
           true 100 Sample.binary None None None [] Hne).
Defined.

Lemma consecutive_pages_concatenate_witness :
  (0 <= 0 /\ 0 <= 1 /\ 0 <= 1 /\ 0 + 1 < 2 ^ 63 /\ 1 + 1 < 2 ^ 63)
  /\ encodable_opt (Some Sample.text_plain) = true
  /\ exists first second,
      Main.select_entries IndexScan 0 1 (Some Sample.text_plain) None
        Sample.two_entries
      = (Ok first, Sample.two_entries)
      /\ Main.select_entries IndexScan (0 + 1) 1 (Some Sample.text_plain)
           None Sample.two_entries
         = (Ok second, Sample.two_entries)
      /\ Main.select_entries IndexScan 0 (1 + 1) (Some Sample.text_plain)
           None Sample.two_entries
         = (Ok (first ++ second), Sample.two_entries).
Proof.
  assert (Hb : 0 + 1 < 2 ^ 63 /\ 1 + 1 < 2 ^ 63) by (split; reflexivity).
  assert (Hct : encodable_opt (Some Sample.text_plain) = true)
    by reflexivity.
  split; [split; [lia|split; [lia|split; [lia|exact Hb]]]|].
  split; [exact Hct|].
  apply (consecutive_pages_concatenate IndexScan 0 1 1
           (Some Sample.text_plain) None Sample.two_entries);
    [lia | lia | lia | exact (proj1 Hb) | exact (proj2 Hb) | exact Hct].
Defined.

Lemma access_path_only_reorders_witness :
  (0 <= 0 /\ -1 < 0)
  /\ Shape.query_binds 0 (-1) (Some Sample.text_plain) = true
  /\ exists rows1 rows2,
      Main.select_entries IndexScan 0 (-1) (Some Sample.text_plain) None
        Sample.two_entries
      = (Ok rows1, Sample.two_entries)
      /\ Main.select_entries TableScan 0 (-1) (Some Sample.text_plain) None
           Sample.two_entries
         = (Ok rows2, Sample.two_entries)
      /\ Permutation rows1 rows2.
Proof.
  assert (Hq : Shape.query_binds 0 (-1) (Some Sample.text_plain) = true)
    by reflexivity.
  split; [lia|]. split; [exact Hq|].
  destruct (access_path_only_reorders IndexScan TableScan 0 (-1)
              (Some Sample.text_plain) None Sample.two_entries)
    as (rows1 & rows2 & H1 & H2 & Hp & _); [lia | lia | exact Hq |].
  exists rows1, rows2. auto.
Defined.

Lemma page_size_witness :
  (0 <= 1 /\ 0 <= 5)
  /\ Shape.query_binds 1 5 (Some Sample.text_plain) = true
  /\ exists rows,
      Main.select_entries IndexScan 1 5 (Some Sample.text_plain) None
        Sample.two_entries
      = (Ok rows, Sample.two_entries)
      /\ Z.of_nat (length rows) = 1.
Proof.
  assert (Hq : Shape.query_binds 1 5 (Some Sample.text_plain) = true)
    by reflexivity.
  split; [lia|]. split; [exact Hq|].
  destruct (page_size IndexScan 1 5 (Some Sample.text_plain) None
              Sample.two_entries)
    as (rows & Hrun & Hlen); [lia | lia | exact Hq |].
  exists rows. split; [exact Hrun|]. rewrite Hlen. reflexivity.
Defined.

Lemma binary_payload_is_determined_by_content_witness :
  Utf8.decode Sample.binary = None
  /\ Services.prepare_content Sample.binary
     = Services.prepare_content (octets [0; 1; 255]%N)
  /\ Sample.binary = octets [0; 1; 255]%N.
Proof.
  split; [reflexivity|]. split; [reflexivity|].
  apply (binary_payload_is_determined_by_content Sample.binary
           (octets [0; 1; 255]%N)); reflexivity.
Defined.

Lemma binary_content_is_base64_text_witness :
  Utf8.decode Sample.binary = None
  /\ length (Services.prepare_content Sample.binary) = 4%nat
  /\ forallb Inverse.base64_char (Services.prepare_content Sample.binary)
     = true.
Proof.
  split; [reflexivity|].
  exact (binary_content_is_base64_text Sample.binary eq_refl).
Defined.

Lemma text_payload_is_determined_by_content_witness :
  (Utf8.decode Sample.hello = Some (lit "hello world")
   /\ Json.loads (lit "hello world") = None)
  /\ Inverse.encode_text (Services.prepare_content Sample.hello)
     = map Byte.to_N Sample.hello.
Proof.
  split; [split; reflexivity|].
  exact (proj1 (text_payload_is_determined_by_content Sample.hello
                  Sample.hello (lit "hello world") (lit "hello world")
                  eq_refl eq_refl eq_refl eq_refl eq_refl)).
Defined.

Lemma list_entries_answers_only_when_empty_witness :
  Shape.query_binds (2 ^ 63) 100 None = false
  /\ fst (Main.list_entries TableScan (2 ^ 63) 100 None None
            Sample.two_entries)
     = Raise OverflowError.
Proof.
  assert (Hq : Shape.query_binds (2 ^ 63) 100 None = false) by reflexivity.
  split; [exact Hq|].
  destruct (proj2 (proj2 (list_entries_answers_only_when_empty TableScan
                            (2 ^ 63) 100 None None Sample.two_entries)) Hq)
    as [H | H]; [|exact H].
  vm_compute in H. discriminate.
Defined.

End MoreInstances.

(* ================================================================== *)
(** * The stored form of a JSON payload *)

Section JsonProperties.
Import Database Json Document.
Context {E : PyEnv}.
Open Scope N_scope.

Lemma option_map_app_nil {A} (o : option (list A)) : option_map (app []) o = o.
Proof. destruct o; reflexivity. Qed.

Lemma option_map_app_cons {A} (t : A) (ts : list A) (o : option (list A)) :
  option_map (app (t :: ts)) o = option_map (cons t) (option_map (app ts) o).
Proof. destruct o; reflexivity. Qed.

Lemma lex_from_cons s c cs ts s' :
  lex_step s c = Some (ts, s') ->
  lex_from s (c :: cs) = option_map (app ts) (lex_from s' cs).
Proof. intros H. cbn [lex_from]. rewrite H. reflexivity. Qed.

(** One character that yields no token. *)
Ltac skip_char s' :=
  rewrite (lex_from_cons _ _ _ [] s') by reflexivity;
  rewrite option_map_app_nil.

(** A run of known characters that yield no token. *)
Ltac lex_known :=
  cbn [app];
  match goal with
  | |- context [escape_char ?c] =>
    let l := eval vm_compute in (escape_char c) in
    change (escape_char c) with l
  | _ => idtac
  end;
  cbn [app];
  repeat (erewrite lex_from_cons by reflexivity;
          rewrite option_map_app_nil);
  reflexivity.

(** *** Whitespace *)

Lemma lex_spaces (n : nat) (rest : str) :
  lex_from LIdle (concat (repeat (lit "  ") n) ++ rest) = lex_from LIdle rest.
Proof.
  induction n as [|n IH]; [reflexivity|].
  cbn [repeat concat]. rewrite <- app_assoc.
  change (lit "  " ++ ?x) with (ch " " :: ch " " :: x).
  skip_char LIdle. skip_char LIdle. exact IH.
Qed.

Lemma lex_newline_indent (n : nat) (rest : str) :
  lex_from LIdle (newline_indent n ++ rest) = lex_from LIdle rest.
Proof.
  unfold newline_indent. cbn [app]. skip_char LIdle. apply lex_spaces.
Qed.

(** *** Strings *)

Lemma lex_escaped_char (c : N) (acc more : str) :
  lex_from (LStr acc None) (escape_char c ++ more)
  = lex_from (LStr (c :: acc) None) more.
Proof.
  destruct (N.ltb_spec c 32) as [Hc|Hc].
  - assert (Hin : In c (Inverse.below 32)).
    { unfold Inverse.below. apply in_map_iff. exists (N.to_nat c).
      split; [apply N2Nat.id | apply in_seq; lia]. }
    vm_compute in Hin.
    repeat (destruct Hin as [<-|Hin]; [lex_known|]).
    destruct Hin.
  - unfold escape_char.
    destruct (N.eqb_spec c QUOTE) as [->|Hq].
    { cbn [app]. skip_char (LEsc acc None).
      skip_char (LStr (QUOTE :: acc) None).
      reflexivity. }
    destruct (N.eqb_spec c BACKSLASH) as [->|Hb].
    { cbn [app]. skip_char (LEsc acc None).
      skip_char (LStr (BACKSLASH :: acc) None). reflexivity. }
    unfold LF, CR, TAB, FF, BS.
    repeat match goal with
           | |- context [c =? ?k] => destruct (N.eqb_spec c k); [lia|]
           end.
    destruct (N.ltb_spec c 32); [lia|].
    cbn [app].
    rewrite (lex_from_cons _ _ _ [] (LStr (c :: acc) None)).
    + apply option_map_app_nil.
    + cbn [lex_step flush].
      destruct (N.eqb_spec c QUOTE); [contradiction|].
      destruct (N.eqb_spec c BACKSLASH); [contradiction|].
      destruct (N.ltb_spec c 32); [lia | reflexivity].
Qed.


Lemma option_map_app_one {A} (t : A) (o : option (list A)) :
  option_map (app [t]) o = option_map (cons t) o.
Proof. destruct o; reflexivity. Qed.

Lemma option_map_app_app {A} (a b : list A) (o : option (list A)) :
  option_map (app a) (option_map (app b) o) = option_map (app (a ++ b)) o.
Proof. destruct o; cbn; [rewrite app_assoc|]; reflexivity. Qed.

Lemma option_map_cons_app {A} (t : A) (b : list A) (o : option (list A)) :
  option_map (cons t) (option_map (app b) o) = option_map (app (t :: b)) o.
Proof. destruct o; reflexivity. Qed.

Lemma lex_string_body (s acc rest : str) :
  lex_from (LStr acc None) (flat_map escape_char s ++ QUOTE :: rest)
  = option_map (cons (TString (rev acc ++ s))) (lex_from LIdle rest).
Proof.
  revert acc. induction s as [|c s IH]; intros acc.
  - cbn [flat_map app]. rewrite app_nil_r.
    rewrite (lex_from_cons _ _ _ [TString (rev acc)] LIdle) by reflexivity.
    apply option_map_app_one.
  - cbn [flat_map]. rewrite <- app_assoc, lex_escaped_char, IH.
    cbn [rev]. rewrite <- app_assoc. reflexivity.
Qed.

Lemma lex_string (s rest : str) :
  lex_from LIdle (encode_basestring s ++ rest)
  = option_map (cons (TString s)) (lex_from LIdle rest).
Proof.
  unfold encode_basestring. cbn [app]. rewrite <- app_assoc. cbn [app].
  skip_char (LStr (@nil N) None). apply lex_string_body.
Qed.

(** *** Integers *)

Lemma uint_digits_are_digits (d : Decimal.uint) :
  Forall digit (uint_digits d).
Proof. induction d; cbn [uint_digits]; constructor; auto; reflexivity. Qed.

Ltac digit_value :=
  match goal with
  | |- context [Z.of_N ?e] =>
    let v := eval vm_compute in (Z.of_N e) in change (Z.of_N e) with v
  end.

Lemma digits_value_acc (d : Decimal.uint) (acc : positive) :
  fold_left (fun a c => (10 * a + Z.of_N (c - ch "0"))%Z) (uint_digits d)
    (Zpos acc)
  = Zpos (Pos.of_uint_acc d acc).
Proof.
  revert acc.
  induction d; intros acc; cbn [uint_digits fold_left Pos.of_uint_acc];
    [reflexivity | rewrite <- IHd; f_equal; digit_value; lia ..].
Qed.

Lemma digits_value_uint (d : Decimal.uint) :
  digits_value (uint_digits d) = Z.of_N (Pos.of_uint d).
Proof.
  unfold digits_value.
  induction d; cbn [uint_digits fold_left Pos.of_uint];
    [reflexivity | exact IHd | digit_value; apply digits_value_acc ..].
Qed.

Lemma nzhead_no_zero (d d' : Decimal.uint) :
  Decimal.nzhead d <> Decimal.D0 d'.
Proof. induction d; cbn [Decimal.nzhead]; try discriminate. exact IHd. Qed.

Lemma to_uint_normal (p : positive) :
  Pos.to_uint p = Decimal.nzhead (Pos.to_uint p).
Proof.
  pose proof (DecimalPos.Unsigned.to_of (Pos.to_uint p)) as H.
  rewrite DecimalPos.Unsigned.of_to in H. cbn [N.to_uint] in H.
  unfold Decimal.unorm in H.
  destruct (Decimal.nzhead (Pos.to_uint p)) eqn:Hn; try exact H.
  exfalso. exact (DecimalPos.Unsigned.to_uint_nonzero p H).
Qed.

Lemma to_uint_head (p : positive) :
  exists c ds,
    uint_digits (Pos.to_uint p) = c :: ds
    /\ In c (map ch ["1"; "2"; "3"; "4"; "5"; "6"; "7"; "8"; "9"]%char)
    /\ Forall digit ds.
Proof.
  pose proof (to_uint_normal p) as Hn.
  pose proof (DecimalPos.Unsigned.to_uint_nonnil p) as Hnil.
  pose proof (uint_digits_are_digits (Pos.to_uint p)) as Hd.
  destruct (Pos.to_uint p) as [|d|d|d|d|d|d|d|d|d|d] eqn:Hp;
    [contradiction | | | | | | | | | | ].
  { exfalso. exact (nzhead_no_zero _ _ (eq_sym Hn)). }
  all: cbn [uint_digits] in *; inversion Hd; subst;
    do 2 eexists; split; [reflexivity|]; split; [|assumption];
    cbn [map In]; tauto.
Qed.

Lemma lex_digits (ds text rest : str) :
  Forall digit ds ->
  lex_from (LNum NInt text) (ds ++ rest)
  = lex_from (LNum NInt (rev ds ++ text)) rest.
Proof.
  intros Hd. revert text. induction Hd as [|c ds Hc Hd IH]; intros text;
    [reflexivity|].
  cbn [app]. rewrite (lex_from_cons _ _ _ [] (LNum NInt (c :: text))).
  - rewrite option_map_app_nil, IH. cbn [rev]. rewrite <- app_assoc.
    reflexivity.
  - cbn [lex_step lex_num]. unfold digit in Hc. rewrite Hc. reflexivity.
Qed.

Lemma lex_number_end (text rest : str) :
  closes_value rest ->
  lex_from (LNum NInt text) rest
  = option_map (cons (TInt (int_of_str (rev text)))) (lex_from LIdle rest).
Proof.
  destruct rest as [|c r]; [reflexivity|].
  intros [->| ->].
  - rewrite (lex_from_cons _ _ _ [TInt (int_of_str (rev text)); TComma] LIdle)
      by reflexivity.
    rewrite (lex_from_cons LIdle _ _ [TComma] LIdle) by reflexivity.
    rewrite option_map_cons_app. reflexivity.
  - rewrite (lex_from_cons _ _ _ [TInt (int_of_str (rev text))] LIdle)
      by reflexivity.
    rewrite (lex_from_cons LIdle _ _ [] LIdle) by reflexivity.
    rewrite option_map_cons_app. reflexivity.
Qed.

Lemma lex_zero (rest : str) :
  closes_value rest ->
  lex_from LIdle (lit "0" ++ rest)
  = option_map (cons (TInt 0)) (lex_from LIdle rest).
Proof.
  change (lit "0" ++ rest) with (ch "0" :: rest).
  skip_char (LNum NZero [ch "0"]).
  destruct rest as [|c r]; [reflexivity|].
  intros [->| ->].
  - rewrite (lex_from_cons _ _ _ [TInt 0; TComma] LIdle) by reflexivity.
    rewrite (lex_from_cons LIdle _ _ [TComma] LIdle) by reflexivity.
    rewrite option_map_cons_app. reflexivity.
  - rewrite (lex_from_cons _ _ _ [TInt 0] LIdle) by reflexivity.
    rewrite (lex_from_cons LIdle _ _ [] LIdle) by reflexivity.
    rewrite option_map_cons_app. reflexivity.
Qed.

Lemma lex_int (z : Z) (rest : str) :
  closes_value rest ->
  lex_from LIdle (int_repr z ++ rest)
  = option_map (cons (TInt z)) (lex_from LIdle rest).
Proof.
  intros Hrest. destruct z as [|p|p]; cbn [int_repr].
  - apply lex_zero. exact Hrest.
  - destruct (to_uint_head p) as (c & ds & Hp & Hc & Hds).
    pose proof (digits_value_uint (Pos.to_uint p)) as Hv.
    rewrite DecimalPos.Unsigned.of_to in Hv. rewrite Hp in *. cbn [app].
    rewrite (lex_from_cons _ _ _ [] (LNum NInt [c]))
      by (cbn [map In] in Hc; intuition (subst; reflexivity)).
    rewrite option_map_app_nil, (lex_digits ds [c] rest Hds).
    rewrite (lex_number_end _ rest Hrest).
    rewrite rev_app_distr, rev_involutive. cbn [rev app].
    do 2 f_equal. f_equal.
    unfold int_of_str.
    replace (c =? ch "-") with false
      by (cbn [map In] in Hc; intuition (subst; reflexivity)).
    exact Hv.
  - destruct (to_uint_head p) as (c & ds & Hp & Hc & Hds).
    pose proof (digits_value_uint (Pos.to_uint p)) as Hv.
    rewrite DecimalPos.Unsigned.of_to in Hv. rewrite Hp in *.
    change (lit "-" ++ c :: ds) with (ch "-" :: c :: ds). cbn [app].
    skip_char (LNum NMinus [ch "-"]).
    rewrite (lex_from_cons _ _ _ [] (LNum NInt [c; ch "-"]))
      by (cbn [map In] in Hc; intuition (subst; reflexivity)).
    rewrite option_map_app_nil, (lex_digits ds [c; ch "-"] rest Hds).
    rewrite (lex_number_end _ rest Hrest).
    rewrite rev_app_distr, rev_involutive. cbn [rev app].
    do 2 f_equal. f_equal.
    unfold int_of_str. rewrite N.eqb_refl, Hv. reflexivity.
Qed.


(** *** Documents *)

Lemma json_nested_ind (P : json -> Prop) :
  P JNull -> (forall b, P (JBool b)) -> (forall z, P (JInt z)) ->
  (forall f, P (JFloat f)) -> (forall s, P (JStr s)) ->
  (forall l, Forall P l -> P (JList l)) ->
  (forall d, Forall (fun kv => P (snd kv)) d -> P (JDict d)) ->
  forall v, P v.
Proof.
  intros Hnull Hbool Hint Hfloat Hstr Hlist Hdict.
  fix IH 1. intros [ |b|z|f|s|l|d].
  - exact Hnull.
  - apply Hbool.
  - apply Hint.
  - apply Hfloat.
  - apply Hstr.
  - apply Hlist. revert l. fix IHl 1. intros [|x l]; constructor.
    + apply IH.
    + apply IHl.
  - apply Hdict. revert d. fix IHd 1. intros [|[k x] d]; constructor.
    + apply IH.
    + apply IHd.
Qed.

Lemma dumps_list (level : nat) (x : json) (l : list json) :
  dumps level (JList (x :: l))
  = lit "[" ++ newline_indent (S level)
    ++ join (lit "," ++ newline_indent (S level))
         (map (dumps (S level)) (x :: l))
    ++ newline_indent level ++ lit "]".
Proof. reflexivity. Qed.

Lemma dumps_dict (level : nat) (kv : str * json) (d : list (str * json)) :
  dumps level (JDict (kv :: d))
  = lit "{" ++ newline_indent (S level)
    ++ join (lit "," ++ newline_indent (S level))
         (map (fun kv => encode_basestring (fst kv) ++ lit ": "
                         ++ dumps (S level) (snd kv)) (kv :: d))
    ++ newline_indent level ++ lit "}".
Proof. reflexivity. Qed.

Lemma closes_newline (n : nat) (rest : str) :
  closes_value (newline_indent n ++ rest).
Proof. cbn. right. reflexivity. Qed.

Lemma lex_join {A} (text : A -> str) (toks : A -> list token)
  (n m : nat) (x : A) (items : list A) (rest : str) :
  Forall (scans_as text toks) (x :: items) ->
  lex_from LIdle
    (join (lit "," ++ newline_indent n) (map text (x :: items))
     ++ newline_indent m ++ rest)
  = option_map (app (join_with [TComma] (map toks (x :: items))))
      (lex_from LIdle rest).
Proof.
  revert x. induction items as [|y items IH]; intros x Hall.
  - cbn [map join join_with]. apply Forall_inv in Hall.
    rewrite (Hall _ (closes_newline m rest)), lex_newline_indent.
    reflexivity.
  - inversion Hall as [|? ? Hx Hrest]; subst.
    change (join (lit "," ++ newline_indent n) (map text (x :: y :: items)))
      with (text x ++ (lit "," ++ newline_indent n)
            ++ join (lit "," ++ newline_indent n) (map text (y :: items))).
    change (join_with [TComma] (map toks (x :: y :: items)))
      with (toks x ++ [TComma]
            ++ join_with [TComma] (map toks (y :: items))).
    rewrite <- !app_assoc. rewrite Hx by (cbn; left; reflexivity).
    change (lit "," ++ ?r) with (ch "," :: r).
    rewrite (lex_from_cons LIdle _ _ [TComma] LIdle) by reflexivity.
    rewrite lex_newline_indent, (IH y Hrest).
    rewrite !option_map_app_app, <- !app_assoc. reflexivity.
Qed.

Lemma lex_dumps (v : json) :
  float_free v ->
  forall level, scans_as (dumps level) tokens_of v.
Proof.
  induction v as [ |b|z|f|s|l IH|d IH] using json_nested_ind;
    intros Hff level rest Hrest.
  - change (dumps level JNull ++ rest)
      with (ch "n" :: ch "u" :: ch "l" :: ch "l" :: rest).
    do 3 (erewrite lex_from_cons by reflexivity;
          rewrite option_map_app_nil).
    erewrite lex_from_cons by reflexivity. reflexivity.
  - destruct b.
    + change (dumps level (JBool true) ++ rest)
        with (ch "t" :: ch "r" :: ch "u" :: ch "e" :: rest).
      do 3 (erewrite lex_from_cons by reflexivity;
            rewrite option_map_app_nil).
      erewrite lex_from_cons by reflexivity. reflexivity.
    + change (dumps level (JBool false) ++ rest)
        with (ch "f" :: ch "a" :: ch "l" :: ch "s" :: ch "e" :: rest).
      do 4 (erewrite lex_from_cons by reflexivity;
            rewrite option_map_app_nil).
      erewrite lex_from_cons by reflexivity. reflexivity.
  - cbn [dumps tokens_of]. rewrite (lex_int z rest Hrest).
    symmetry. apply option_map_app_one.
  - inversion Hff.
  - cbn [dumps tokens_of]. rewrite lex_string.
    symmetry. apply option_map_app_one.
  - destruct l as [|x l].
    + change (dumps level (JList []) ++ rest)
        with (ch "[" :: ch "]" :: rest).
      rewrite (lex_from_cons LIdle _ _ [TLBracket] LIdle) by reflexivity.
      rewrite (lex_from_cons LIdle _ _ [TRBracket] LIdle) by reflexivity.
      rewrite option_map_app_app. reflexivity.
    + rewrite dumps_list. cbn [tokens_of].
      change (lit "[" ++ ?r) with (ch "[" :: r). cbn [app].
      rewrite <- !app_assoc.
      rewrite (lex_from_cons LIdle _ _ [TLBracket] LIdle) by reflexivity.
      rewrite lex_newline_indent.
      rewrite (lex_join (dumps (S level)) tokens_of).
      * change (lit "]" ++ rest) with (ch "]" :: rest).
        rewrite (lex_from_cons LIdle _ _ [TRBracket] LIdle) by reflexivity.
        rewrite !option_map_app_app. reflexivity.
      * inversion Hff as [ | | | |l' Hl|]; subst.
        rewrite Forall_forall in *. intros y Hy.
        apply IH; [exact Hy | apply Hl; exact Hy].
  - destruct d as [|kv d].
    + change (dumps level (JDict []) ++ rest)
        with (ch "{" :: ch "}" :: rest).
      rewrite (lex_from_cons LIdle _ _ [TLBrace] LIdle) by reflexivity.
      rewrite (lex_from_cons LIdle _ _ [TRBrace] LIdle) by reflexivity.
      rewrite option_map_app_app. reflexivity.
    + rewrite dumps_dict. cbn [tokens_of].
      change (lit "{" ++ ?r) with (ch "{" :: r). cbn [app].
      rewrite <- !app_assoc.
      rewrite (lex_from_cons LIdle _ _ [TLBrace] LIdle) by reflexivity.
      rewrite lex_newline_indent.
      rewrite (lex_join
                 (fun kv => encode_basestring (fst kv) ++ lit ": "
                            ++ dumps (S level) (snd kv))
                 (fun kv => TString (fst kv) :: TColon :: tokens_of (snd kv))).
      * change (lit "}" ++ rest) with (ch "}" :: rest).
        rewrite (lex_from_cons LIdle _ _ [TRBrace] LIdle) by reflexivity.
        rewrite !option_map_app_app. reflexivity.
      * inversion Hff as [ | | | | |d' Hd]; subst.
        rewrite Forall_forall in *. intros y Hy rest' Hrest'.
        rewrite <- !app_assoc, lex_string.
        change (lit ": " ++ ?r) with (ch ":" :: ch " " :: r).
        rewrite (lex_from_cons LIdle _ _ [TColon] LIdle) by reflexivity.
        skip_char LIdle.
        rewrite (IH y Hy (Hd y Hy) (S level) rest' Hrest').
        rewrite option_map_app_app, option_map_cons_app. reflexivity.
Qed.


(** *** Reading the tokens of a document *)

Lemma parse_from_cons m stack t ts :
  parse_from m stack (t :: ts)
  = match parse_step m stack t with
    | Some (m', stack') => parse_from m' stack' ts
    | None => None
    end.
Proof. reflexivity. Qed.

Lemma reads_scalar (t : token) (v : json) :
  (forall stack, start_value t stack = put v stack) ->
  t <> TRBracket ->
  reads_as [t] v.
Proof.
  intros Hstart Hne m stack ts Hm. cbn [app]. rewrite parse_from_cons.
  replace (parse_step m stack t) with (put v stack); [reflexivity|].
  rewrite <- Hstart.
  destruct Hm as [-> | ->]; [reflexivity|].
  destruct t; try reflexivity; try contradiction;
    destruct stack as [|[]]; reflexivity.
Qed.

Lemma parse_items (stack : list frame) (ts : list token) (x : json)
  (items : list json) :
  Forall (fun v => reads_as (tokens_of v) v) (x :: items) ->
  forall acc m, m = MValue \/ m = MFirstItem ->
    parse_from m (FList acc :: stack)
      (join_with [TComma] (map tokens_of (x :: items)) ++ TRBracket :: ts)
    = match put (JList (rev acc ++ x :: items)) stack with
      | Some (m', stack') => parse_from m' stack' ts
      | None => None
      end.
Proof.
  revert x. induction items as [|y items IH]; intros x Hall acc m Hm.
  - cbn [map join_with]. apply Forall_inv in Hall.
    rewrite (Hall m _ _ Hm). cbn [put].
    rewrite parse_from_cons. cbn [parse_step rev]. reflexivity.
  - inversion Hall as [|? ? Hx Hrest]; subst.
    change (join_with [TComma] (map tokens_of (x :: y :: items)))
      with (tokens_of x ++ [TComma]
            ++ join_with [TComma] (map tokens_of (y :: items))).
    rewrite <- !app_assoc. rewrite (Hx m _ _ Hm). cbn [put app].
    rewrite parse_from_cons. cbn [parse_step].
    rewrite (IH y Hrest (x :: acc) MValue (or_introl eq_refl)).
    cbn [rev]. rewrite <- app_assoc. reflexivity.
Qed.

Lemma dict_set_fresh (d : list (str * json)) (k : str) (v : json) :
  ~ In k (map fst d) -> dict_set d k v = d ++ [(k, v)].
Proof.
  induction d as [|[k' v'] d IH]; cbn [dict_set map fst In app];
    [reflexivity|].
  intros Hno. destruct (str_eqb k' k) eqn:Hk.
  - apply str_eqb_eq in Hk. tauto.
  - rewrite IH by tauto. reflexivity.
Qed.

Lemma parse_members (stack : list frame) (ts : list token)
  (kv : str * json) (pairs : list (str * json)) :
  Forall (fun kv => reads_as (tokens_of (snd kv)) (snd kv)) (kv :: pairs) ->
  forall d m, m = MFirstKey \/ m = MKey ->
    NoDup (map fst (d ++ kv :: pairs)) ->
    parse_from m (FDict d :: stack)
      (join_with [TComma]
         (map (fun kv => TString (fst kv) :: TColon :: tokens_of (snd kv))
              (kv :: pairs))
       ++ TRBrace :: ts)
    = match put (JDict (d ++ kv :: pairs)) stack with
      | Some (m', stack') => parse_from m' stack' ts
      | None => None
      end.
Proof.
  revert kv. induction pairs as [|kv' pairs IH];
    intros [k v] Hall d m Hm Hnd.
  - cbn [map join_with fst snd app]. apply Forall_inv in Hall.
    cbn [snd] in Hall.
    rewrite parse_from_cons.
    replace (parse_step m (FDict d :: stack) (TString k))
      with (Some (MColon, FDictKey d k :: stack))
      by (destruct Hm as [-> | ->]; reflexivity).
    rewrite parse_from_cons. cbn [parse_step].
    rewrite (Hall MValue _ _ (or_introl eq_refl)). cbn [put].
    rewrite parse_from_cons. cbn [parse_step].
    rewrite dict_set_fresh; [reflexivity|].
    rewrite map_app in Hnd. apply NoDup_remove_2 in Hnd.
    rewrite app_nil_r in Hnd. exact Hnd.
  - inversion Hall as [|? ? Hx Hrest]; subst. cbn [snd] in Hx.
    change (join_with [TComma]
              (map (fun kv => TString (fst kv) :: TColon :: tokens_of (snd kv))
                   ((k, v) :: kv' :: pairs)))
      with ((TString k :: TColon :: tokens_of v) ++ [TComma]
            ++ join_with [TComma]
                 (map (fun kv => TString (fst kv) :: TColon
                                 :: tokens_of (snd kv))
                      (kv' :: pairs))).
    rewrite <- !app_assoc. cbn [app].
    rewrite parse_from_cons.
    replace (parse_step m (FDict d :: stack) (TString k))
      with (Some (MColon, FDictKey d k :: stack))
      by (destruct Hm as [-> | ->]; reflexivity).
    rewrite parse_from_cons. cbn [parse_step].
    rewrite (Hx MValue _ _ (or_introl eq_refl)). cbn [put].
    rewrite parse_from_cons. cbn [parse_step].
    assert (Hfresh : ~ In k (map fst d)).
    { rewrite map_app in Hnd. apply NoDup_remove_2 in Hnd.
      intros Hin. apply Hnd. apply in_or_app. left. exact Hin. }
    rewrite (dict_set_fresh d k v Hfresh).
    rewrite (IH kv' Hrest (d ++ [(k, v)]) MKey (or_intror eq_refl)).
    + rewrite <- app_assoc. reflexivity.
    + rewrite <- app_assoc. exact Hnd.
Qed.

Lemma parse_tokens (v : json) :
  keys_distinct v -> reads_as (tokens_of v) v.
Proof.
  induction v as [ |b|z|f|s|l IH|d IH] using json_nested_ind; intros Hkd.
  - apply reads_scalar; [reflexivity | discriminate].
  - destruct b; apply reads_scalar; (reflexivity || discriminate).
  - apply reads_scalar; [reflexivity | discriminate].
  - apply reads_scalar; [reflexivity | discriminate].
  - apply reads_scalar; [reflexivity | discriminate].
  - inversion Hkd as [ | | | | |l' Hl|]; subst.
    intros m stack ts Hm. cbn [tokens_of app]. rewrite parse_from_cons.
    replace (parse_step m stack TLBracket)
      with (Some (MFirstItem, FList [] :: stack))
      by (destruct Hm as [-> | ->]; [|destruct stack as [|[]]]; reflexivity).
    destruct l as [|x l].
    + cbn [map join_with app]. rewrite parse_from_cons. reflexivity.
    + rewrite <- app_assoc. cbn [app].
      rewrite (parse_items stack ts x l); [reflexivity| |right; reflexivity].
      rewrite Forall_forall in *. intros y Hy. apply IH; auto.
  - inversion Hkd as [ | | | | | |d' Hnd Hd]; subst.
    intros m stack ts Hm. cbn [tokens_of app]. rewrite parse_from_cons.
    replace (parse_step m stack TLBrace)
      with (Some (MFirstKey, FDict [] :: stack))
      by (destruct Hm as [-> | ->]; [|destruct stack as [|[]]]; reflexivity).
    destruct d as [|kv d].
    + cbn [map join_with app]. rewrite parse_from_cons. reflexivity.
    + rewrite <- app_assoc. cbn [app].
      rewrite (parse_members stack ts kv d);
        [reflexivity | | left; reflexivity | exact Hnd].
      rewrite Forall_forall in *. intros y Hy. apply IH; auto.
Qed.

(** *** The byte-order mark *)

Lemma loads_after_lex (s : str) (ts : list token) :
  lex s = Some ts -> loads s = parse_from MValue [] ts.
Proof.
  unfold loads, lex. intros Hlex.
  destruct s as [|c s]; [rewrite Hlex; reflexivity|].
  destruct (N.eq_dec c 0xFEFF) as [->|Hc]; [discriminate|].
  rewrite Hlex.
  destruct c as [|p]; [reflexivity|].
  repeat (destruct p as [p|p|]; try reflexivity).
  contradiction.
Qed.

Lemma loads_dumps (v : json) :
  float_free v -> keys_distinct v -> loads (dumps 0 v) = Some v.
Proof.
  intros Hff Hkd.
  assert (Hlex : lex (dumps 0 v) = Some (tokens_of v)).
  { unfold lex. rewrite <- (app_nil_r (dumps 0 v)).
    rewrite (lex_dumps v Hff 0 [] I). cbn. rewrite app_nil_r. reflexivity. }
  rewrite (loads_after_lex _ _ Hlex).
  rewrite <- (app_nil_r (tokens_of v)).
  rewrite (parse_tokens v Hkd MValue [] [] (or_introl eq_refl)).
  reflexivity.
Qed.


(** *** What the parser builds *)

Lemma dict_set_keys (d : list (str * json)) (k : str) (v : json) :
  forall k', In k' (map fst (dict_set d k v)) ->
             k' = k \/ In k' (map fst d).
Proof.
  induction d as [|[k0 v0] d IH]; cbn [dict_set map fst In]; intros k'.
  - intros [->|[]]. left. reflexivity.
  - destruct (str_eqb k0 k); cbn [map fst In]; [tauto|].
    intros [->|Hin]; [tauto|]. destruct (IH k' Hin); tauto.
Qed.

Lemma dict_set_ok (d : list (str * json)) (k : str) (v : json) :
  keys_distinct v ->
  NoDup (map fst d) /\ Forall (fun kv => keys_distinct (snd kv)) d ->
  NoDup (map fst (dict_set d k v))
  /\ Forall (fun kv => keys_distinct (snd kv)) (dict_set d k v).
Proof.
  intros Hv. induction d as [|[k0 v0] d IH]; cbn [dict_set map fst].
  - intros _. split; repeat constructor; [intros [] | exact Hv].
  - intros [Hnd Hall]. inversion Hnd as [|? ? Hnotin Hnd']; subst.
    inversion Hall as [|? ? Hv0 Hall']; subst.
    destruct (str_eqb k0 k) eqn:Hk; cbn [map fst].
    + split; [exact Hnd | constructor; [exact Hv | exact Hall']].
    + destruct (IH (conj Hnd' Hall')) as [IHn IHa].
      split; [|constructor; assumption].
      constructor; [|exact IHn].
      intros Hin. destruct (dict_set_keys d k v k0 Hin) as [->|Hin'].
      * rewrite (proj2 (str_eqb_eq k k) eq_refl) in Hk. discriminate.
      * contradiction.
Qed.

Lemma put_ok (v : json) (stack : list frame) m' stack' :
  keys_distinct v -> Forall frame_ok stack ->
  put v stack = Some (m', stack') ->
  mode_ok m' /\ Forall frame_ok stack'.
Proof.
  intros Hv Hst. destruct stack as [|[items|d|d k] st]; cbn [put];
    intros H; try discriminate; injection H as <- <-.
  - split; [exact Hv | constructor].
  - inversion Hst; subst. split; [exact I|].
    constructor; [constructor; assumption | assumption].
  - inversion Hst as [|? ? Hf Hst']; subst. split; [exact I|].
    constructor; [|assumption]. apply dict_set_ok; assumption.
Qed.

Lemma start_value_ok (t : token) (stack : list frame) m' stack' :
  Forall frame_ok stack ->
  start_value t stack = Some (m', stack') ->
  mode_ok m' /\ Forall frame_ok stack'.
Proof.
  intros Hst. destruct t; cbn [start_value]; intros H; try discriminate;
    try (eapply put_ok; [|exact Hst|exact H]; constructor).
  - injection H as <- <-. split; [exact I|].
    constructor; [split; constructor | exact Hst].
  - injection H as <- <-. split; [exact I|].
    constructor; [constructor | exact Hst].
Qed.

Lemma close_list_ok (items : list json) :
  Forall keys_distinct items -> keys_distinct (JList (rev items)).
Proof.
  intros H. constructor. rewrite Forall_forall in *.
  intros x Hx. apply H. apply in_rev. exact Hx.
Qed.

Lemma parse_step_ok m (stack : list frame) (t : token) m' stack' :
  Forall frame_ok stack ->
  parse_step m stack t = Some (m', stack') ->
  mode_ok m' /\ Forall frame_ok stack'.
Proof.
  intros Hst H.
  assert (Hkey : forall t, read_key t stack = Some (m', stack') ->
                           mode_ok m' /\ Forall frame_ok stack').
  { intros t0 Hr. unfold read_key in Hr.
    destruct t0; try discriminate.
    destruct stack as [|[items|d|d k] st]; try discriminate.
    injection Hr as <- <-. inversion Hst; subst.
    split; [exact I | constructor; assumption]. }
  destruct m; cbn [parse_step] in H.
  - exact (start_value_ok _ _ _ _ Hst H).
  - destruct t; try exact (start_value_ok _ _ _ _ Hst H).
    destruct stack as [|[items|d|d k] st];
      try exact (start_value_ok _ _ _ _ Hst H).
    inversion Hst as [|? ? Hitems Hst']; subst.
    apply (put_ok _ _ _ _ (close_list_ok items Hitems) Hst' H).
  - destruct t; try exact (Hkey _ H).
    destruct stack as [|[items|d|d k] st]; try exact (Hkey _ H).
    inversion Hst as [|? ? Hf Hst']; subst.
    cbn [frame_ok] in Hf. destruct Hf as [Hnd Hall].
    apply (put_ok _ _ _ _ (keys_distinct_dict d Hnd Hall) Hst' H).
  - exact (Hkey _ H).
  - destruct t; try discriminate. injection H as <- <-.
    split; [exact I | exact Hst].
  - destruct t; try discriminate;
      destruct stack as [|[items|d|d k] st]; try discriminate.
    + inversion Hst as [|? ? Hf Hst']; subst.
      cbn [frame_ok] in Hf. destruct Hf as [Hnd Hall].
      apply (put_ok _ _ _ _ (keys_distinct_dict d Hnd Hall) Hst' H).
    + inversion Hst as [|? ? Hitems Hst']; subst.
      apply (put_ok _ _ _ _ (close_list_ok items Hitems) Hst' H).
    + injection H as <- <-. split; [exact I | exact Hst].
    + injection H as <- <-. split; [exact I | exact Hst].
  - discriminate.
Qed.

Lemma parse_from_ok (ts : list token) :
  forall m stack v,
    mode_ok m -> Forall frame_ok stack ->
    parse_from m stack ts = Some v -> keys_distinct v.
Proof.
  induction ts as [|t ts IH]; intros m stack v Hm Hst H.
  - cbn [parse_from] in H. destruct m; try discriminate.
    destruct stack; [|discriminate]. injection H as <-. exact Hm.
  - rewrite parse_from_cons in H.
    destruct (parse_step m stack t) as [[m' stack']|] eqn:Hstep;
      [|discriminate].
    destruct (parse_step_ok _ _ _ _ _ Hst Hstep) as [Hm' Hst'].
    exact (IH m' stack' v Hm' Hst' H).
Qed.

Lemma loads_keys_distinct (s : str) (v : json) :
  loads s = Some v -> keys_distinct v.
Proof.
  unfold loads. intros H.
  assert (Hp : exists ts, parse_from MValue [] ts = Some v).
  { destruct s as [|c s].
    - destruct (lex []) as [ts|]; [eauto | discriminate].
    - destruct (lex (c :: s)) as [ts|].
      + exists ts. destruct c as [|p]; [exact H|].
        repeat (destruct p as [p|p|]; try exact H). discriminate.
      + exfalso. destruct c as [|p]; [discriminate|].
        repeat (destruct p as [p|p|]; try discriminate). }
  destruct Hp as (ts & Hp).
  exact (parse_from_ok ts MValue [] v I (Forall_nil _) Hp).
Qed.


(** ** What is stored for a JSON payload *)

(** X17. What is stored for a JSON payload without floating-point
    numbers is JSON text for the document the payload holds: parsing the
    stored content gives that document, and pretty-printing what it
    parses to gives the stored content again. *)
Theorem structured_content_reads_back (b : bytes) (text : str) (v : json) :
  Utf8.decode b = Some text ->
  loads text = Some v ->
  float_free v ->
  loads (Services.prepare_content b) = Some v
  /\ match loads (Services.prepare_content b) with
     | Some doc => dumps 0 doc
     | None => Services.prepare_content b
     end = Services.prepare_content b.
Proof.
  intros Hd Hl Hff. unfold Services.prepare_content. rewrite Hd, Hl.
  rewrite (loads_dumps v Hff (loads_keys_distinct text v Hl)).
  split; reflexivity.
Qed.

(** X18. In the document that is pretty-printed for a JSON payload no
    object holds a key twice, however often the payload repeats it. *)
Theorem stored_document_has_distinct_keys (b : bytes) (text : str)
  (v : json) :
  Utf8.decode b = Some text ->
  loads text = Some v ->
  Services.prepare_content b = dumps 0 v /\ keys_distinct v.
Proof.
  intros Hd Hl. unfold Services.prepare_content. rewrite Hd, Hl.
  split; [reflexivity|]. exact (loads_keys_distinct text v Hl).
Qed.

(** X19. The stored content of a JSON payload without floating-point
    numbers tells its document: a UTF-8 payload with the same stored
    content is itself JSON, never plain text, and when it has no
    floating-point number either it holds the same document. *)
Theorem structured_content_determines_document (b1 b2 : bytes)
  (text1 text2 : str) (v1 : json) :
  Utf8.decode b1 = Some text1 ->
  loads text1 = Some v1 ->
  float_free v1 ->
  Utf8.decode b2 = Some text2 ->
  Services.prepare_content b1 = Services.prepare_content b2 ->
  loads text2 <> None
  /\ forall v2, loads text2 = Some v2 -> float_free v2 -> v1 = v2.
Proof.
  intros Hd1 Hl1 Hff1 Hd2. unfold Services.prepare_content.
  rewrite Hd1, Hl1, Hd2.
  pose proof (loads_dumps v1 Hff1 (loads_keys_distinct text1 v1 Hl1))
    as Hback.
  destruct (loads text2) as [v2|] eqn:Hl2; intros Heq.
  - split; [discriminate|]. intros v2' Hv2' Hff2.
    injection Hv2' as <-.
    pose proof (loads_dumps v2 Hff2 (loads_keys_distinct text2 v2 Hl2))
      as Hback2.
    rewrite Heq in Hback. congruence.
  - exfalso. rewrite Heq in Hback. congruence.
Qed.

End JsonProperties.

(* ================================================================== *)
(** * Instances for JSON payloads *)

Section JsonInstances.
Import Database Json Document.
#[local] Existing Instance Sample.env.

Lemma structured_content_reads_back_witness :
  exists text v,
    Utf8.decode Sample.compact_json = Some text
    /\ loads text = Some v
    /\ float_free v
    /\ loads (Services.prepare_content Sample.compact_json) = Some v.
Proof.
  exists (map Byte.to_N Sample.compact_json), (JDict [(lit "a", JInt 1)]).
  assert (Hff : float_free (JDict [(lit "a", JInt 1)]))
    by (repeat constructor).
  split; [reflexivity|]. split; [reflexivity|]. split; [exact Hff|].
  exact (proj1 (structured_content_reads_back Sample.compact_json
                  (map Byte.to_N Sample.compact_json)
                  (JDict [(lit "a", JInt 1)]) eq_refl eq_refl Hff)).
Defined.

Lemma stored_document_has_distinct_keys_witness :
  let text := lit "{" ++ [QUOTE] ++ lit "a" ++ [QUOTE] ++ lit ":1,"
              ++ [QUOTE] ++ lit "a" ++ [QUOTE] ++ lit ":2}" in
  let v := JDict [(lit "a", JInt 2)] in
  Utf8.decode (octets text) = Some text
  /\ loads text = Some v
  /\ Services.prepare_content (octets text) = dumps 0 v
  /\ keys_distinct v.
Proof.
  intros text v.
  split; [reflexivity|]. split; [reflexivity|].
  exact (stored_document_has_distinct_keys (octets text) text v
           eq_refl eq_refl).
Defined.

Lemma structured_content_determines_document_witness :
  (Utf8.decode Sample.compact_json
   = Some (map Byte.to_N Sample.compact_json)
   /\ loads (map Byte.to_N Sample.compact_json)
      = Some (JDict [(lit "a", JInt 1)])
   /\ float_free (JDict [(lit "a", JInt 1)])
   /\ Utf8.decode Sample.pretty_json = Some Sample.pretty_json_text
   /\ Services.prepare_content Sample.compact_json
      = Services.prepare_content Sample.pretty_json)
  /\ loads Sample.pretty_json_text <> None.
Proof.
  assert (Hff : float_free (JDict [(lit "a", JInt 1)]))
    by (repeat constructor).
  split; [repeat split; (reflexivity || exact Hff)|].
  exact (proj1 (structured_content_determines_document Sample.compact_json
                  Sample.pretty_json (map Byte.to_N Sample.compact_json)
                  Sample.pretty_json_text (JDict [(lit "a", JInt 1)])
                  eq_refl eq_refl Hff eq_refl eq_refl)).
Defined.

End JsonInstances.
